(** * UTSP quick start (standalone): the SpaceDemo game and the UTSPClient wrapper

    A shallow embedding of [src/applications/SpaceDemo.ts] and of the
    [UTSPClient] React component, followed by the properties of the
    specification that concern them.

    Conventions of the embedding.
    - A JavaScript [number] that holds a coordinate, a speed or a value of
      [Math.random()] is an exact rational [Q]: rounding of doubles is not
      modelled, [NaN] and the infinities do not exist.  Counters that the
      code only initialises with integer literals and changes with [++],
      [--] or an integer constant ([score], [lives], [invincibilityFrames],
      grid coordinates after [Math.floor], palette ids) are [Z].
    - [Math.random()] is an oracle [rnd : nat -> Q] read through a counter
      that every call advances (the monad [Rand]).
    - The classes of the UTSP runtime ([Layer], [OrderBuilder],
      [ClientRuntime]) are not part of the repository; they are modelled as
      recorders of the calls made on them.
    - An exception is a [Js.Completion]; the state mutated before the throw
      is kept, as in JavaScript. *)

From Stdlib Require Import ZArith QArith Qround Qminmax Lqa Lia Bool.
From Stdlib Require Import String Ascii DecimalString.
From stdpp Require Import base list.

Local Open Scope Q_scope.

(* ====================================================================== *)
(** ** JavaScript primitives used by the two sources *)
(* ====================================================================== *)

Module Js.

Inductive Error : Set := RangeError | TypeError.

Inductive Completion : Set := Normal | Throw (e : Error).

(** An integer-valued [number] read as a [number]. *)
Definition num (z : Z) : Q := inject_Z z.

(** [Math.floor]. *)
Definition floor (x : Q) : Z := Qfloor x.

(** [x < y] and [x > y] on numbers. *)
Definition ltb (x y : Q) : bool := negb (Qle_bool y x).
Definition gtb (x y : Q) : bool := ltb y x.

(** [arr[i]] for an index computed as a number: [undefined] ([None]) when
    the index is out of range. *)
Definition index {A : Type} (arr : list A) (i : Z) : option A :=
  if (i <? 0)%Z then None else arr !! Z.to_nat i.

Fixpoint copies (s : string) (n : nat) : string :=
  match n with
  | O => EmptyString
  | S n' => String.append s (copies s n')
  end.

(** [String.prototype.repeat(count)] for an integer [count]: a negative
    count throws [RangeError] ([None]). *)
Definition repeat (s : string) (count : Z) : option string :=
  if (count <? 0)%Z then None else Some (copies s (Z.to_nat count)).

(** An integer [number] inside a template literal. *)
Definition toString (z : Z) : string := NilZero.string_of_int (Z.to_int z).

Definition boolToString (b : bool) : string :=
  if b then "true"%string else "false"%string.

End Js.

(* ====================================================================== *)
(** ** The random source *)
(* ====================================================================== *)

(** A computation that draws from [Math.random()]: it receives the number
    of draws made so far and returns it advanced. *)
Definition Rand (A : Type) : Type := nat -> A * nat.

Definition ret {A : Type} (a : A) : Rand A := fun k => (a, k).

Definition bind {A B : Type} (m : Rand A) (f : A -> Rand B) : Rand B :=
  fun k => let (a, k') := m k in f a k'.

Notation "x <- m ;; f" := (bind m (fun x => f))
  (at level 90, m at level 80, right associativity).

(** [Array.from({ length: n }, () => f())] and, over an existing array,
    [arr.forEach(a => Object.assign(a, f()))]: [f] is run once per slot,
    in index order. *)
Fixpoint arrayFrom {A : Type} (n : nat) (f : Rand A) : Rand (list A) :=
  match n with
  | O => ret []
  | S n' => a <- f ;; rest <- arrayFrom n' f ;; ret (a :: rest)
  end.

(* ====================================================================== *)
(** ** SpaceDemo.ts *)
(* ====================================================================== *)

Module SpaceDemo.

(** *** Types *)

Record Star : Type := mkStar {
  star_x : Q;
  star_y : Q;
  star_color : option Z
}.

Record Asteroid : Type := mkAsteroid {
  asteroid_x : Q;
  asteroid_y : Q;
  asteroid_char : option string
}.

(** The drawing orders built through [OrderBuilder]. *)
Record Dot : Type := mkDot {
  posX : Z;
  posY : Z;
  charCode : option string;
  fgColorCode : option Z;
  bgColorCode : Z
}.

Inductive Order : Type :=
| dotCloudMultiColor (dots : list Dot)
| sprite (x y spriteId fg bg : Z)
| text (x y : Z) (s : string) (fg bg : Z).

(** A [Layer] of the runtime: its construction parameters, the orders last
    given to [setOrders], and the order lists sent by [commit], oldest
    first. *)
Record Layer : Type := mkLayer {
  layer_name : string;
  zIndex : Z;
  layer_width : Z;
  layer_height : Z;
  mustBeReliable : bool;
  orders : list Order;
  committed : list (list Order)
}.

Definition setOrders (l : Layer) (os : list Order) : Layer :=
  mkLayer (layer_name l) (zIndex l) (layer_width l) (layer_height l)
          (mustBeReliable l) os (committed l).

Definition commit (l : Layer) : Layer :=
  mkLayer (layer_name l) (zIndex l) (layer_width l) (layer_height l)
          (mustBeReliable l) (orders l) (committed l ++ [orders l]).

Record SpaceUserData : Type := mkData {
  starLayerFar : Layer;
  starLayerNear : Layer;
  gameLayer : Layer;
  uiLayer : Layer;
  starsFar : list Star;
  starsNear : list Star;
  asteroids : list Asteroid;
  shipX : Q;
  shipY : Q;
  score : Z;
  lives : Z;
  invincibilityFrames : Z;
  gameOver : bool
}.

(** The [User] object as [updateUser] sees it: its [data] and what its
    input methods answer during the tick. *)
Record User : Type := mkUser {
  data : option SpaceUserData;
  getButtonJustPressed : string -> bool;
  getAxis : string -> Q
}.

(** Field assignments [state.f = v]. *)
Definition set_starLayerFar (v : Layer) (s : SpaceUserData) : SpaceUserData :=
  mkData v (starLayerNear s) (gameLayer s) (uiLayer s) (starsFar s)
         (starsNear s) (asteroids s) (shipX s) (shipY s) (score s) (lives s)
         (invincibilityFrames s) (gameOver s).
Definition set_starLayerNear (v : Layer) (s : SpaceUserData) : SpaceUserData :=
  mkData (starLayerFar s) v (gameLayer s) (uiLayer s) (starsFar s)
         (starsNear s) (asteroids s) (shipX s) (shipY s) (score s) (lives s)
         (invincibilityFrames s) (gameOver s).
Definition set_gameLayer (v : Layer) (s : SpaceUserData) : SpaceUserData :=
  mkData (starLayerFar s) (starLayerNear s) v (uiLayer s) (starsFar s)
         (starsNear s) (asteroids s) (shipX s) (shipY s) (score s) (lives s)
         (invincibilityFrames s) (gameOver s).
Definition set_uiLayer (v : Layer) (s : SpaceUserData) : SpaceUserData :=
  mkData (starLayerFar s) (starLayerNear s) (gameLayer s) v (starsFar s)
         (starsNear s) (asteroids s) (shipX s) (shipY s) (score s) (lives s)
         (invincibilityFrames s) (gameOver s).
Definition set_starsFar (v : list Star) (s : SpaceUserData) : SpaceUserData :=
  mkData (starLayerFar s) (starLayerNear s) (gameLayer s) (uiLayer s) v
         (starsNear s) (asteroids s) (shipX s) (shipY s) (score s) (lives s)
         (invincibilityFrames s) (gameOver s).
Definition set_starsNear (v : list Star) (s : SpaceUserData) : SpaceUserData :=
  mkData (starLayerFar s) (starLayerNear s) (gameLayer s) (uiLayer s)
         (starsFar s) v (asteroids s) (shipX s) (shipY s) (score s) (lives s)
         (invincibilityFrames s) (gameOver s).
Definition set_asteroids (v : list Asteroid) (s : SpaceUserData) : SpaceUserData :=
  mkData (starLayerFar s) (starLayerNear s) (gameLayer s) (uiLayer s)
         (starsFar s) (starsNear s) v (shipX s) (shipY s) (score s) (lives s)
         (invincibilityFrames s) (gameOver s).
Definition set_shipX (v : Q) (s : SpaceUserData) : SpaceUserData :=
  mkData (starLayerFar s) (starLayerNear s) (gameLayer s) (uiLayer s)
         (starsFar s) (starsNear s) (asteroids s) v (shipY s) (score s)
         (lives s) (invincibilityFrames s) (gameOver s).
Definition set_shipY (v : Q) (s : SpaceUserData) : SpaceUserData :=
  mkData (starLayerFar s) (starLayerNear s) (gameLayer s) (uiLayer s)
         (starsFar s) (starsNear s) (asteroids s) (shipX s) v (score s)
         (lives s) (invincibilityFrames s) (gameOver s).
Definition set_score (v : Z) (s : SpaceUserData) : SpaceUserData :=
  mkData (starLayerFar s) (starLayerNear s) (gameLayer s) (uiLayer s)
         (starsFar s) (starsNear s) (asteroids s) (shipX s) (shipY s) v
         (lives s) (invincibilityFrames s) (gameOver s).
Definition set_lives (v : Z) (s : SpaceUserData) : SpaceUserData :=
  mkData (starLayerFar s) (starLayerNear s) (gameLayer s) (uiLayer s)
         (starsFar s) (starsNear s) (asteroids s) (shipX s) (shipY s)
         (score s) v (invincibilityFrames s) (gameOver s).
Definition set_invincibilityFrames (v : Z) (s : SpaceUserData) : SpaceUserData :=
  mkData (starLayerFar s) (starLayerNear s) (gameLayer s) (uiLayer s)
         (starsFar s) (starsNear s) (asteroids s) (shipX s) (shipY s)
         (score s) (lives s) v (gameOver s).
Definition set_gameOver (v : bool) (s : SpaceUserData) : SpaceUserData :=
  mkData (starLayerFar s) (starLayerNear s) (gameLayer s) (uiLayer s)
         (starsFar s) (starsNear s) (asteroids s) (shipX s) (shipY s)
         (score s) (lives s) (invincibilityFrames s) v.

(** What parts of the state two states share: the layers, stars and ship
    (all that the collision loop leaves alone), the health counters, and
    the game (all that rendering leaves alone). *)
Definition sameScene (s s' : SpaceUserData) : Prop :=
  starLayerFar s' = starLayerFar s /\ starLayerNear s' = starLayerNear s /\
  gameLayer s' = gameLayer s /\ uiLayer s' = uiLayer s /\
  starsFar s' = starsFar s /\ starsNear s' = starsNear s /\
  shipX s' = shipX s /\ shipY s' = shipY s.

Definition sameHealth (s s' : SpaceUserData) : Prop :=
  lives s' = lives s /\ invincibilityFrames s' = invincibilityFrames s /\
  gameOver s' = gameOver s.

Definition sameGame (s s' : SpaceUserData) : Prop :=
  starsFar s' = starsFar s /\ starsNear s' = starsNear s /\
  asteroids s' = asteroids s /\ shipX s' = shipX s /\ shipY s' = shipY s /\
  score s' = score s /\ sameHealth s s'.

(** *** Constants *)

Definition WIDTH : Z := 60.
Definition HEIGHT : Z := 20.

Definition TRANSPARENT : Z := 255.

Definition COLOR_DEEP_SPACE : Z := 0.
Definition COLOR_DIM_STAR : Z := 1.
Definition COLOR_MEDIUM_STAR : Z := 2.
Definition COLOR_BRIGHT_STAR : Z := 3.
Definition COLOR_SHIP : Z := 4.
Definition COLOR_ASTEROID : Z := 6.
Definition COLOR_WHITE : Z := 7.
Definition COLOR_GOLD : Z := 8.
Definition COLOR_GAMEOVER : Z := 9.
Definition COLOR_LOST_HEART : Z := 10.

Definition ASTEROIDS_START : Z := 2.
Definition ASTEROIDS_MAX : Z := 10.
Definition ASTEROIDS_PER_SCORE : Z := 3.
Definition DIFFICULTY_FULL_AT : Z := 20.

Definition TICK_RATE : Z := 30.
Definition SPEED_SHIP : Q := 1.0.
Definition SPEED_ASTEROID : Q := 1.0.
Definition SPEED_STARS_FAR : Q := 0.5.
Definition SPEED_STARS_NEAR : Q := 1.5.

(** The heart drawn once per life by [renderUI]. *)
Definition HEART : string := "♥".

(** *** Global initialization *)

(** One entry of the palette given to [core.loadPaletteToSlot]. *)
Record PaletteColor : Type := mkColor {
  colorId : Z;
  color_r : Z;
  color_g : Z;
  color_b : Z;
  color_a : Z
}.

(** One entry of the list given to [core.loadUnicolorSprites]. *)
Record SpriteDef : Type := mkSprite {
  sprite_spriteId : Z;
  sizeX : Z;
  sizeY : Z;
  sprite_data : string
}.

Definition newline : string := String (ascii_of_nat 10) EmptyString.

(** The template literal [SHIP_SPRITE]: a line break, then the three rows
    of the ship. *)
Definition SHIP_SPRITE : string :=
  (newline ++ " / " ++ newline ++ ">=>" ++ newline ++ " \ ")%string.

(** The calls [init] makes on [core] and [runtime], in order. *)
Inductive SetupCall : Type :=
| loadPaletteToSlot (slot : Z) (colors : list PaletteColor)
| loadUnicolorSprites (sprites : list SpriteDef)
| setTickRate (rate : Z).

(** [init(runtime, core)]. *)
Definition init : list SetupCall :=
  let palette :=
    [mkColor 0 5 5 15 255;
     mkColor 1 40 40 60 255;
     mkColor 2 80 80 120 255;
     mkColor 3 150 150 200 255;
     mkColor 4 100 200 255 255;
     mkColor 5 255 150 50 255;
     mkColor 6 140 140 140 255;
     mkColor 7 255 255 255 255;
     mkColor 8 255 220 100 255;
     mkColor 9 255 80 80 255;
     mkColor 10 100 100 100 255]%Z in
  [loadPaletteToSlot 0 palette;
   loadUnicolorSprites [mkSprite 0 3 3 SHIP_SPRITE];
   setTickRate TICK_RATE].

(** The colour ids that the setup calls load into palette slot [slot], and
    the sprite ids they load. *)
Definition loadedColors (slot : Z) (calls : list SetupCall) : list Z :=
  flat_map (fun call =>
              match call with
              | loadPaletteToSlot s colors =>
                  if (s =? slot)%Z then map colorId colors else []
              | _ => []
              end) calls.

Definition loadedSprites (calls : list SetupCall) : list Z :=
  flat_map (fun call =>
              match call with
              | loadUnicolorSprites sprites => map sprite_spriteId sprites
              | _ => []
              end) calls.

(** The colour codes an order carries ([None] for an [undefined] one), and
    the sprite it draws. *)
Definition orderColors (o : Order) : list (option Z) :=
  match o with
  | dotCloudMultiColor dots =>
      flat_map (fun d => [fgColorCode d; Some (bgColorCode d)]) dots
  | sprite _ _ _ fg bg => [Some fg; Some bg]
  | text _ _ _ fg bg => [Some fg; Some bg]
  end.

Definition orderSprites (o : Order) : list Z :=
  match o with
  | sprite _ _ spriteId _ _ => [spriteId]
  | _ => []
  end.

(** A colour id the display knows after [init]: [TRANSPARENT], or one
    loaded into slot 0. *)
Definition loaded (id : Z) : Prop :=
  id = TRANSPARENT \/ In id (loadedColors 0 init).

(** An order that the display can draw after [init]: its colours are
    [TRANSPARENT] or loaded into slot 0 (the slot [initUser] switches the
    display to), its sprite is loaded, its dots have a character. *)
Definition drawable (o : Order) : Prop :=
  (forall c, In c (orderColors o) ->
     exists id, c = Some id /\ (id = TRANSPARENT \/ In id (loadedColors 0 init)))
  /\ (forall id, In id (orderSprites o) -> In id (loadedSprites init))
  /\ (forall dots, o = dotCloudMultiColor dots ->
        Forall (fun d => charCode d <> None) dots).

(** Everything a layer ever committed is drawable. *)
Definition painted (l : Layer) : Prop :=
  Forall (Forall drawable) (committed l).

(** *** Ranges that the game keeps *)

(** The counters of a game: at most three lives, a score that is not
    negative, a recovery timer within one second, and [gameOver] set
    exactly when no life is left. *)
Definition countersOk (s : SpaceUserData) : Prop :=
  (lives s <= 3)%Z /\ (0 <= score s)%Z /\
  (0 <= invincibilityFrames s <= TICK_RATE)%Z /\
  (gameOver s = true <-> (lives s <= 0)%Z).

(** A star on the layer, coloured with one of [colors]. *)
Definition starOk (colors : list Z) (star : Star) : Prop :=
  0 <= star_x star <= Js.num WIDTH /\ 0 <= star_y star < Js.num HEIGHT /\
  exists c, star_color star = Some c /\ In c colors.

(** An asteroid between the left recycling line and the right end of the
    spawn strip, on a playable row, with one of the three characters. *)
Definition asteroidOk (a : Asteroid) : Prop :=
  -2 <= asteroid_x a <= Js.num WIDTH + 30 /\
  2 <= asteroid_y a <= Js.num (HEIGHT - 3) /\
  In (asteroid_char a) [Some "o"; Some "O"; Some "0"]%string.

(** An asteroid that the loop of the tick has not visited yet: as
    [asteroidOk], but it may be anywhere on the left. *)
Definition unvisitedOk (a : Asteroid) : Prop :=
  asteroid_x a <= Js.num WIDTH + 30 /\
  2 <= asteroid_y a <= Js.num (HEIGHT - 3) /\
  In (asteroid_char a) [Some "o"; Some "O"; Some "0"]%string.

(** The field of a game: its stars, its asteroids and what its layers
    were sent. *)
Definition fieldOk (s : SpaceUserData) : Prop :=
  Forall (starOk [COLOR_DIM_STAR; COLOR_MEDIUM_STAR]) (starsFar s) /\
  Forall (starOk [COLOR_MEDIUM_STAR; COLOR_BRIGHT_STAR]) (starsNear s) /\
  Forall asteroidOk (asteroids s) /\
  painted (starLayerFar s) /\ painted (starLayerNear s) /\
  painted (gameLayer s) /\ painted (uiLayer s).

(** *** The application *)

Section Application.

(** The values [Math.random()] returns, in the order of the calls. *)
Variable rnd : nat -> Q.

Definition random : Rand Q := fun k => (rnd k, S k).

(** [generateStars(count, colors)]. *)
Definition generateStars (count : nat) (colors : list Z) : Rand (list Star) :=
  arrayFrom count
    (rx <- random ;;
     ry <- random ;;
     rc <- random ;;
     ret (mkStar (rx * Js.num WIDTH) (ry * Js.num HEIGHT)
                 (Js.index colors
                    (Js.floor (rc * Js.num (Z.of_nat (length colors))))))).

(** [createAsteroid(score)].  The draws are made in the order of the
    source: the character, the edge test (only when [centerBias < 1], by
    the short circuit of [&&]), the side and the offset of an edge spawn or
    the offset of a full-range spawn, and last the horizontal position.
    Sums, products and the quotient [score / DIFFICULTY_FULL_AT] are exact
    here, where the source rounds each to a double: there a sum such as
    [WIDTH + r * 30] can reach its bound, and the edge test can go the
    other way for a draw within one rounding of the quotient.  The
    properties of spawned asteroids below use closed bounds only, which
    rounding to nearest keeps. *)
Definition createAsteroid (score : Z) : Rand Asteroid :=
  let chars := ["o"; "O"; "0"]%string in
  rc <- random ;;
  let char := Js.index chars (Js.floor (rc * Js.num (Z.of_nat (length chars)))) in
  let centerBias := Qmin 1 (Js.num score / Js.num DIFFICULTY_FULL_AT) in
  let minY := 2%Z in
  let maxY := (HEIGHT - 3)%Z in
  let halfRange := Js.num (maxY - minY) / 2 in
  edge <- (if Js.ltb centerBias 1
           then r <- random ;; ret (Js.gtb r centerBias)
           else ret false) ;;
  y <- (if edge : bool
        then
          let edgeRange := halfRange * 0.4 in
          side <- random ;;
          r <- random ;;
          ret (if Js.ltb side 0.5
               then Js.num minY + r * edgeRange
               else Js.num maxY - r * edgeRange)
        else
          r <- random ;;
          ret (Js.num minY + r * Js.num (maxY - minY))) ;;
  rx <- random ;;
  ret (mkAsteroid (Js.num WIDTH + rx * 30) y char).

(** An asteroid as [createAsteroid] makes them. *)
Definition spawned (a : Asteroid) : Prop :=
  exists (score : Z) (k : nat), a = fst (createAsteroid score k).

(** The asteroid is left of the screen once moved by [SPEED_ASTEROID]. *)
Definition offscreen (a : Asteroid) : bool :=
  Js.ltb (asteroid_x a - SPEED_ASTEROID) (-2).

(** The number of asteroids of [l] that are about to leave the screen. *)
Definition leavers (l : list Asteroid) : Z :=
  Z.of_nat (length (List.filter offscreen l)).

(** What one pass of the loop body at index [i] leaves in the array: the
    element [b] at [i], and at most one asteroid pushed behind the others,
    which happens only below [ASTEROIDS_MAX]. *)
Definition passed (i : nat) (st st' : SpaceUserData) (b : Asteroid)
    (extra : list Asteroid) : Prop :=
  asteroids st' = <[i := b]> (asteroids st) ++ extra
  /\ (extra = [] \/
      exists p, extra = [p] /\ spawned p
                /\ (length (asteroids st) < Z.to_nat ASTEROIDS_MAX)%nat).

(** [scrollStars(stars, speed)]. *)
Fixpoint scrollStars (stars : list Star) (speed : Q) : Rand (list Star) :=
  match stars with
  | [] => ret []
  | star :: rest =>
      let x := star_x star - speed in
      star' <- (if Js.ltb x 0
                then r <- random ;;
                     ret (mkStar (Js.num WIDTH) (r * Js.num HEIGHT)
                                 (star_color star))
                else ret (mkStar x (star_y star) (star_color star))) ;;
      rest' <- scrollStars rest speed ;;
      ret (star' :: rest')
  end.

(** [resetGame(state)].  [state.asteroids.length = ASTEROIDS_START] cuts a
    longer array; on a shorter one it leaves empty slots behind the
    elements, which [forEach] skips.  The lists of this model are dense:
    the result holds the elements that exist, and [updateUser] below counts
    the empty slots. *)
Definition resetGame (state : SpaceUserData) : Rand SpaceUserData :=
  let state := set_shipX 10 state in
  let state := set_shipY (Js.num HEIGHT / 2) state in
  let state := set_score 0 state in
  let state := set_lives 3 state in
  let state := set_invincibilityFrames 0 state in
  let state := set_gameOver false state in
  let kept := take (Z.to_nat ASTEROIDS_START) (asteroids state) in
  fresh <- arrayFrom (length kept) (createAsteroid 0) ;;
  ret (set_asteroids fresh state).

(** *** Rendering *)

Definition starDot (star : Star) : Dot :=
  mkDot (Js.floor (star_x star)) (Js.floor (star_y star)) (Some "."%string)
        (star_color star) TRANSPARENT.

Definition renderStars (layer : Layer) (stars : list Star) : Layer :=
  commit (setOrders layer [dotCloudMultiColor (map starDot stars)]).

Definition asteroidDot (a : Asteroid) : Dot :=
  mkDot (Js.floor (asteroid_x a)) (Js.floor (asteroid_y a)) (asteroid_char a)
        (Some COLOR_ASTEROID) TRANSPARENT.

Definition shipColor (state : SpaceUserData) : Z :=
  if gameOver state then COLOR_GAMEOVER
  else if (invincibilityFrames state >? 0)%Z then
    let isRedPhase :=
      (Z.rem (Js.floor (Js.num (invincibilityFrames state) / 5)) 2 =? 0)%Z in
    if isRedPhase then COLOR_GAMEOVER else COLOR_SHIP
  else COLOR_SHIP.

Definition renderGame (state : SpaceUserData) : SpaceUserData :=
  let asteroidDots := map asteroidDot (asteroids state) in
  let shipX := Js.floor (shipX state) in
  let shipY := (Js.floor (shipY state) - 1)%Z in
  let orders :=
    [dotCloudMultiColor asteroidDots;
     sprite shipX shipY 0 (shipColor state) TRANSPARENT] in
  set_gameLayer (commit (setOrders (gameLayer state) orders)) state.

(** The order list of [renderUI]; [None] when one of the two
    [String.repeat] calls throws. *)
Definition uiOrders (state : SpaceUserData) : option (list Order) :=
  match Js.repeat HEART (lives state) with
  | None => None
  | Some red =>
      match Js.repeat HEART (3 - lives state) with
      | None => None
      | Some gray =>
          Some
            ([text 1 0 "SPACE DEMO" COLOR_WHITE COLOR_DEEP_SPACE;
              text 1 1 red COLOR_GAMEOVER TRANSPARENT;
              text (1 + lives state) 1 gray COLOR_LOST_HEART TRANSPARENT;
              text (WIDTH - 11) 0
                   (String.append "Score: " (Js.toString (score state)))
                   COLOR_GOLD COLOR_DEEP_SPACE]
             ++ (if gameOver state
                 then [text 22 8 "GAME OVER!" COLOR_GAMEOVER COLOR_DEEP_SPACE;
                       text 17 10 "Press SPACE to restart" COLOR_WHITE
                            COLOR_DEEP_SPACE]
                 else [text 1 (HEIGHT - 1) "Avoid asteroids! [WASD] or Stick"
                            COLOR_DIM_STAR TRANSPARENT]))%Z
      end
  end.

Definition renderUI (state : SpaceUserData) : Js.Completion * SpaceUserData :=
  match uiOrders state with
  | None => (Js.Throw Js.RangeError, state)
  | Some orders =>
      (Js.Normal, set_uiLayer (commit (setOrders (uiLayer state) orders)) state)
  end.

Definition renderAll (state : SpaceUserData) : Js.Completion * SpaceUserData :=
  let state :=
    set_starLayerFar (renderStars (starLayerFar state) (starsFar state)) state in
  let state :=
    set_starLayerNear (renderStars (starLayerNear state) (starsNear state)) state in
  let state := renderGame state in
  renderUI state.

(** *** The game loop *)

(** The collision test of the loop body: ship body (3 wide) and wings
    (centre column), on grid coordinates. *)
Definition collides (shipGridX shipGridY : Z) (asteroid : Asteroid) : bool :=
  let asteroidGridX := Js.floor (asteroid_x asteroid) in
  let asteroidGridY := Js.floor (asteroid_y asteroid) in
  let hitBody :=
    ((asteroidGridY =? shipGridY) && (asteroidGridX >=? shipGridX)
     && (asteroidGridX <=? shipGridX + 2))%Z in
  let hitWings :=
    (((asteroidGridY =? shipGridY - 1) || (asteroidGridY =? shipGridY + 1))
     && (asteroidGridX =? shipGridX + 1))%Z in
  hitBody || hitWings.

(** The end of the loop body: the asteroid at index [i], already moved, is
    recycled when it has left the screen, and one more asteroid is pushed
    when the score asks for it.  [emptySlots] is the number of empty slots
    behind the elements of the array (0 except in the tick of a restart on
    an array shorter than [ASTEROIDS_START]); it counts in
    [state.asteroids.length]. *)
Definition recycleOffscreen (emptySlots i : nat) (asteroid : Asteroid)
    (state : SpaceUserData) : Rand SpaceUserData :=
  if Js.ltb (asteroid_x asteroid) (-2)
  then
    fresh <- createAsteroid (score state) ;;
    let state := set_asteroids (<[i := fresh]> (asteroids state)) state in
    let state := set_score (score state + 1) state in
    let targetCount :=
      Z.min ASTEROIDS_MAX
            (ASTEROIDS_START
             + Js.floor (Js.num (score state) / Js.num ASTEROIDS_PER_SCORE)) in
    if (Z.of_nat (length (asteroids state) + emptySlots) <? targetCount)%Z
    then
      pushed <- createAsteroid (score state) ;;
      ret (set_asteroids (asteroids state ++ [pushed]) state)
    else ret state
  else ret state.

(** One pass of the body of [for (const asteroid of state.asteroids)], for
    the asteroid at index [i]. *)
Definition asteroidStep (shipGridX shipGridY : Z) (emptySlots : nat)
    (i : nat) (asteroid : Asteroid) (state : SpaceUserData) : Rand SpaceUserData :=
  let asteroid :=
    mkAsteroid (asteroid_x asteroid - SPEED_ASTEROID) (asteroid_y asteroid)
               (asteroid_char asteroid) in
  let state := set_asteroids (<[i := asteroid]> (asteroids state)) state in
  if collides shipGridX shipGridY asteroid
  then
    if (invincibilityFrames state <=? 0)%Z
    then
      let state := set_lives (lives state - 1) state in
      if (lives state <=? 0)%Z
      then recycleOffscreen emptySlots i asteroid (set_gameOver true state)
      else
        let state := set_invincibilityFrames TICK_RATE state in
        fresh <- createAsteroid (score state) ;;
        ret (set_asteroids (<[i := fresh]> (asteroids state)) state)
    else recycleOffscreen emptySlots i asteroid state
  else recycleOffscreen emptySlots i asteroid state.

(** The [for ... of] loop from index [i] on.  The array iterator reads
    [length] anew at every step, so an asteroid pushed by the body is
    visited in the same loop.  [fuel] bounds the number of passes;
    [asteroidLoop_fuel] shows that [loopFuel] passes are enough. *)
Fixpoint asteroidLoop (shipGridX shipGridY : Z) (emptySlots : nat)
    (fuel i : nat) (state : SpaceUserData) : Rand SpaceUserData :=
  match fuel with
  | O => ret state
  | S fuel' =>
      match asteroids state !! i with
      | None => ret state
      | Some asteroid =>
          state <- asteroidStep shipGridX shipGridY emptySlots i asteroid state ;;
          asteroidLoop shipGridX shipGridY emptySlots fuel' (S i) state
      end
  end.

Definition loopFuel (state : SpaceUserData) : nat :=
  (length (asteroids state) + Z.to_nat ASTEROIDS_MAX)%nat.

(** The passes that the loop can still make from index [i]: the array
    only grows while it is shorter than [ASTEROIDS_MAX]. *)
Definition passesLeft (i : nat) (state : SpaceUserData) : nat :=
  (Nat.max (length (asteroids state)) (Z.to_nat ASTEROIDS_MAX) - i)%nat.

(** The tick up to the collision loop: recovery timer, ship movement and
    star scrolling. *)
Definition prepareTick (user : User) (state : SpaceUserData) : Rand SpaceUserData :=
  let state :=
    if (invincibilityFrames state >? 0)%Z
    then set_invincibilityFrames (invincibilityFrames state - 1) state
    else state in
  let moveX := getAxis user "MoveX" in
  let moveY := getAxis user "MoveY" in
  let state :=
    set_shipX (Qmax 1 (Qmin 15 (shipX state + moveX * SPEED_SHIP))) state in
  let state :=
    set_shipY (Qmax 2 (Qmin (Js.num (HEIGHT - 3))
                            (shipY state + moveY * SPEED_SHIP))) state in
  far <- scrollStars (starsFar state) SPEED_STARS_FAR ;;
  let state := set_starsFar far state in
  near <- scrollStars (starsNear state) SPEED_STARS_NEAR ;;
  ret (set_starsNear near state).

(** [updateUser] from the recovery timer on (the part after the game-over
    guard).  After the loop over the elements, an empty slot makes the
    iterator yield [undefined], on which [asteroid.x] throws [TypeError]
    before anything is rendered. *)
Definition playTick (user : User) (emptySlots : nat)
    (state : SpaceUserData) : Rand (Js.Completion * SpaceUserData) :=
  state <- prepareTick user state ;;
  let shipGridX := Js.floor (shipX state) in
  let shipGridY := Js.floor (shipY state) in
  state <- asteroidLoop shipGridX shipGridY emptySlots (loopFuel state) 0 state ;;
  match emptySlots with
  | O => ret (renderAll state)
  | S _ => ret (Js.Throw Js.TypeError, state)
  end.

(** What a call of [updateUser] leaves: how it completed, [user.data], and
    the number of random draws made so far. *)
Record Outcome : Type := mkOutcome {
  completion : Js.Completion;
  dataAfter : option SpaceUserData;
  drawsAfter : nat
}.

Definition finish (r : Js.Completion * SpaceUserData * nat) : Outcome :=
  let '(c, state, k) := r in mkOutcome c (Some state) k.

(** [updateUser(runtime, core, user, deltaTime)]. *)
Definition updateUser (user : User) (k : nat) : Outcome :=
  match data user with
  | None => mkOutcome Js.Normal None k
  | Some state =>
      if gameOver state
      then
        if getButtonJustPressed user "Restart"
        then
          let emptySlots :=
            (Z.to_nat ASTEROIDS_START - length (asteroids state))%nat in
          finish ((state <- resetGame state ;; playTick user emptySlots state) k)
        else mkOutcome Js.Normal (Some state) k
      else finish (playTick user 0 state k)
  end.

(** The state and the draw count with which a call of [updateUser] on
    [state] goes on to play the tick; [None] when it returns at the
    game-over guard. *)
Definition tickEntry (user : User) (state : SpaceUserData) (k : nat)
  : option (SpaceUserData * nat) :=
  if gameOver state
  then if getButtonJustPressed user "Restart"
       then Some (resetGame state k)
       else None
  else Some (state, k).

(** [initUser]: the four layers and the initial game state.  The display
    and the input bindings are registrations with the runtime that leave
    [user.data] alone. *)
Definition newLayer (z : Z) (reliable : bool) (name : string) : Layer :=
  mkLayer name z WIDTH HEIGHT reliable [] [].

(** The record that [initUser] assigns to [user.data]. *)
Definition initialData : Rand SpaceUserData :=
  let starLayerFar := newLayer 0 false "starLayerFar" in
  let starLayerNear := newLayer 1 false "starLayerNear" in
  let gameLayer := newLayer 2 true "gameLayer" in
  let uiLayer := newLayer 3 true "uiLayer" in
  starsFar <- generateStars 40 [COLOR_DIM_STAR; COLOR_MEDIUM_STAR] ;;
  starsNear <- generateStars 25 [COLOR_MEDIUM_STAR; COLOR_BRIGHT_STAR] ;;
  asteroids <- arrayFrom (Z.to_nat ASTEROIDS_START) (createAsteroid 0) ;;
  ret (mkData starLayerFar starLayerNear gameLayer uiLayer
              starsFar starsNear asteroids
              10 (Js.num HEIGHT / 2) 0 3 0 false).

Definition initUser (user : User) : Rand User :=
  state <- initialData ;;
  ret (mkUser (Some state) (getButtonJustPressed user) (getAxis user)).

(** The axes answer within [-1, 1]. *)
Definition axesInRange (user : User) : Prop :=
  (-1 <= getAxis user "MoveX" <= 1) /\ (-1 <= getAxis user "MoveY" <= 1).

(** The states of [user.data] that a game can be in: the one [initUser]
    leaves, and the one every further call of [updateUser] leaves, whatever
    the inputs and however many random draws other code made in between. *)
Inductive reachable : SpaceUserData -> Prop :=
| reach_init (k : nat) : reachable (fst (initialData k))
| reach_step (user : User) (k : nat) (state state' : SpaceUserData) :
    reachable state ->
    data user = Some state ->
    axesInRange user ->
    dataAfter (updateUser user k) = Some state' ->
    reachable state'.

End Application.

End SpaceDemo.

(* ====================================================================== *)
(** ** UTSPClient.tsx *)
(* ====================================================================== *)

Module UTSPClient.

Section Component.

(** What the component receives from outside the repository: the
    application object with the name of its class
    ([application.constructor.name]), the renderer enumeration with its
    text inside a template literal, and the mounted [div]. *)
Variable Application : Type.
Variable RendererType : Type.
Variable Container : Type.
Variable constructorName : Application -> string.
Variable rendererText : RendererType -> string.

(** The props after their defaults; [className] and [style] only reach the
    rendered [div]. *)
Record Props : Type := mkProps {
  application : Application;
  renderer : RendererType;
  width : Z;
  height : Z;
  autoplay : bool
}.

(** The options object given to [new ClientRuntime(...)]. *)
Record RuntimeOptions : Type := mkOptions {
  mode : string;
  standalone_application : Application;
  container : Container;
  options_renderer : RendererType;
  options_width : Z;
  options_height : Z;
  options_autoplay : bool
}.

(** What the effect does to the world outside the refs, in order.  A
    runtime is named by the number of runtimes constructed before it. *)
Inductive Event : Type :=
| Constructed (runtime : nat) (options : RuntimeOptions)
| Started (runtime : nat)
| Stopped (runtime : nat)
| InnerHTMLSet (element : Container) (html : string).

Definition isConstructed (e : Event) : bool :=
  match e with Constructed _ _ => true | _ => false end.

Definition constructions (log : list Event) : nat :=
  length (List.filter isConstructed log).

(** The three [useRef] cells. *)
Record Refs : Type := mkRefs {
  containerRef : option Container;
  runtimeRef : option nat;
  initializedWithKeyRef : option string
}.

Definition depsKey (props : Props) : string :=
  (constructorName (application props) ++ "-" ++
   rendererText (renderer props) ++ "-" ++
   Js.toString (width props) ++ "-" ++
   Js.toString (height props) ++ "-" ++
   Js.boolToString (autoplay props))%string.

(** [initializedWithKeyRef.current === depsKey]. *)
Definition keyIs (stored : option string) (key : string) : bool :=
  match stored with
  | Some s => String.eqb s key
  | None => false
  end.

(** [runtimeRef.current.stop()] when a runtime is held. *)
Definition stopHeld (refs : Refs) (log : list Event) : list Event :=
  match runtimeRef refs with
  | Some runtime => log ++ [Stopped runtime]
  | None => log
  end.

(** The body of the [useEffect] callback: the refs and the log after it,
    and whether it returned its cleanup function. *)
Definition effect (props : Props) (refs : Refs) (log : list Event)
  : Refs * list Event * bool :=
  match containerRef refs with
  | None => (refs, log, false)
  | Some element =>
      if keyIs (initializedWithKeyRef refs) (depsKey props)
      then (refs, log, false)
      else
        let log := stopHeld refs log in
        let log := log ++ [InnerHTMLSet element ""] in
        let runtime := constructions log in
        let log :=
          log ++ [Constructed runtime
                    (mkOptions "standalone" (application props) element
                               (renderer props) (width props) (height props)
                               (autoplay props))] in
        let log := log ++ [Started runtime] in
        (mkRefs (Some element) (Some runtime) (Some (depsKey props)), log, true)
  end.

(** The cleanup function the effect returns. *)
Definition cleanup (refs : Refs) (log : list Event) : Refs * list Event :=
  (mkRefs (containerRef refs) None None, stopHeld refs log).

(** The effect body run once per element of [runs], with no cleanup in
    between. *)
Fixpoint effects (runs : list Props) (refs : Refs) (log : list Event)
  : Refs * list Event :=
  match runs with
  | [] => (refs, log)
  | props :: rest =>
      let '(refs', log', _) := effect props refs log in
      effects rest refs' log'
  end.

(** The runtimes started and stopped so far. *)
Definition isStarted (e : Event) : bool :=
  match e with Started _ => true | _ => false end.

Definition isStopped (e : Event) : bool :=
  match e with Stopped _ => true | _ => false end.

Definition starts (log : list Event) : nat :=
  length (List.filter isStarted log).

Definition stops (log : list Event) : nat :=
  length (List.filter isStopped log).

(** What React does with the effect: it runs its body with the props of a
    render, or the cleanup. *)
Inductive Invocation : Type :=
| RunEffect (props : Props)
| RunCleanup.

Definition invoke (state : Refs * list Event) (i : Invocation)
  : Refs * list Event :=
  match i with
  | RunEffect props => fst (effect props (fst state) (snd state))
  | RunCleanup => cleanup (fst state) (snd state)
  end.

Definition invocations (l : list Invocation) (state : Refs * list Event)
  : Refs * list Event :=
  fold_left invoke l state.

(** The runtimes that run after the events of a log: those started and
    not stopped since, oldest first. *)
Definition liveStep (alive : list nat) (e : Event) : list nat :=
  match e with
  | Started runtime => alive ++ [runtime]
  | Stopped runtime => List.filter (fun other => negb (Nat.eqb other runtime)) alive
  | _ => alive
  end.

Definition live (log : list Event) : list nat := fold_left liveStep log [].

(** The runtime the refs hold, as a list. *)
Definition heldRuntime (refs : Refs) : list nat :=
  match runtimeRef refs with Some runtime => [runtime] | None => [] end.

(** The number of runtimes the refs hold: one or none. *)
Definition held (refs : Refs) : nat :=
  match runtimeRef refs with Some _ => 1 | None => 0 end.

(** Every runtime constructed is started at once, and all runtimes
    started but the one held are stopped. *)
Definition balanced (state : Refs * list Event) : Prop :=
  constructions (snd state) = starts (snd state) /\
  starts (snd state) = (stops (snd state) + held (fst state))%nat.

End Component.

Arguments mkProps {Application RendererType}.
Arguments application {Application RendererType}.
Arguments renderer {Application RendererType}.
Arguments width {Application RendererType}.
Arguments height {Application RendererType}.
Arguments autoplay {Application RendererType}.
Arguments mkOptions {Application RendererType Container}.
Arguments Constructed {Application RendererType Container}.
Arguments Started {Application RendererType Container}.
Arguments Stopped {Application RendererType Container}.
Arguments InnerHTMLSet {Application RendererType Container}.
Arguments isConstructed {Application RendererType Container}.
Arguments constructions {Application RendererType Container}.
Arguments mkRefs {Container}.
Arguments containerRef {Container}.
Arguments runtimeRef {Container}.
Arguments initializedWithKeyRef {Container}.
Arguments depsKey {Application RendererType}.
Arguments stopHeld {Application RendererType Container}.
Arguments effect {Application RendererType Container}.
Arguments cleanup {Application RendererType Container}.
Arguments effects {Application RendererType Container}.
Arguments liveStep {Application RendererType Container}.
Arguments live {Application RendererType Container}.
Arguments heldRuntime {Container}.
Arguments held {Container}.
Arguments balanced {Application RendererType Container}.
Arguments isStarted {Application RendererType Container}.
Arguments isStopped {Application RendererType Container}.
Arguments starts {Application RendererType Container}.
Arguments stops {Application RendererType Container}.
Arguments RunEffect {Application RendererType}.
Arguments RunCleanup {Application RendererType}.
Arguments invoke {Application RendererType Container}.
Arguments invocations {Application RendererType Container}.

End UTSPClient.

(* ====================================================================== *)
(** ** Concrete games and components used in the examples *)
(* ====================================================================== *)

Module Examples.

Import SpaceDemo.

(** [Math.random()] returning 0 at every call. *)
Definition zeros : nat -> Q := fun _ => 0.

(** A user holding [state], with the Restart button as given and the
    vertical axis at [moveY]. *)
Definition userWith (state : option SpaceUserData) (restart : bool) (moveY : Q) : User :=
  mkUser state
         (fun name => if String.eqb name "Restart" then restart else false)
         (fun name => if String.eqb name "MoveY" then moveY else 0).

(** A game with the ship at (10, 10) and the given asteroids and
    counters. *)
Definition game (rocks : list Asteroid) (score lives frames : Z) (over : bool)
  : SpaceUserData :=
  mkData (newLayer 0 false "starLayerFar") (newLayer 1 false "starLayerNear")
         (newLayer 2 true "gameLayer") (newLayer 3 true "uiLayer")
         [] [] rocks 10 10 score lives frames over.

Definition rock (x y : Q) : Asteroid := mkAsteroid x y (Some "o"%string).

(** The last life, no recovery running, and two asteroids that both reach
    the nose of the ship in the coming tick. *)
Definition lastLife : SpaceUserData :=
  game [rock 13 10; rock 13 10] 0 1 0 false.

(** Two asteroids, one about to leave the screen, and a score of 2. *)
Definition leaving : SpaceUserData :=
  game [rock (-2) 5; rock 40 5] 2 3 0 false.

(** Ten ticks of recovery left, and an asteroid that reaches the nose of
    the ship in the coming tick. *)
Definition recovering : SpaceUserData :=
  game [rock 13 10] 0 2 10 false.

(** Three lives, no recovery running, and two asteroids that both reach
    the nose of the ship in the coming tick. *)
Definition firstHit : SpaceUserData :=
  game [rock 13 10; rock 13 10] 0 3 0 false.

(** The game [initUser] leaves when every draw is 0. *)
Definition opening : SpaceUserData := fst (initialData zeros 0%nat).

(** A finished game with three asteroids. *)
Definition overThree : SpaceUserData :=
  game [rock 12 10; rock 30 4; rock 50 16] 7 0 0 true.

(** The vertical axis of a pilot who climbs to the top row, leaves it while
    the first asteroid comes back, and returns for the second. *)
Definition pilotAxis (t : nat) : Q :=
  if (t <? 8)%nat then -1
  else if ((48 <=? t) && (t <? 51))%nat then 1
  else if ((100 <=? t) && (t <? 103))%nat then -1
  else 0.

(** [n] ticks of that pilot, from tick [t] on, as long as [updateUser]
    completes normally. *)
Fixpoint fly (rnd : nat -> Q) (n t : nat) (state : SpaceUserData) (k : nat) : Outcome :=
  match n with
  | O => mkOutcome Js.Normal (Some state) k
  | S n' =>
      let o := updateUser rnd (userWith (Some state) false (pilotAxis t)) k in
      match completion o, dataAfter o with
      | Js.Normal, Some state' => fly rnd n' (S t) state' (drawsAfter o)
      | _, _ => o
      end
  end.

(** What a player does during one tick: the Restart button, and each axis
    pushed back (-1), left alone (0) or pushed ahead (+1). *)
Inductive Push : Set := Back | Centre | Ahead.

Definition axisValue (p : Push) : Q :=
  match p with Back => -1 | Centre => 0 | Ahead => 1 end.

Record Input : Set := mkInput {
  restartPressed : bool;
  moveX : Push;
  moveY : Push
}.

Definition userAt (state : SpaceUserData) (i : Input) : User :=
  mkUser (Some state)
         (fun name => if String.eqb name "Restart" then restartPressed i else false)
         (fun name => if String.eqb name "MoveX" then axisValue (moveX i)
                      else if String.eqb name "MoveY" then axisValue (moveY i)
                      else 0).

(** One call of [updateUser] per input of the script, as long as the calls
    complete normally: the state and the number of draws after the last of
    them. *)
Fixpoint play (rnd : nat -> Q) (script : list Input) (state : SpaceUserData) (k : nat)
  : SpaceUserData * nat :=
  match script with
  | [] => (state, k)
  | i :: rest =>
      let o := updateUser rnd (userAt state i) k in
      match completion o, dataAfter o with
      | Js.Normal, Some state' => play rnd rest state' (drawsAfter o)
      | _, _ => (state, k)
      end
  end.

(** A game from [initUser] on, every draw being 0: both asteroids spawn at
    (60, 2). *)
Definition session (script : list Input) : SpaceUserData * nat :=
  play zeros script (fst (initialData zeros 0%nat)) (snd (initialData zeros 0%nat)).

Definition idle : Input := mkInput false Centre Centre.
Definition climb : Input := mkInput false Centre Back.
Definition retreat : Input := mkInput false Back Back.
Definition pressRestart : Input := mkInput true Centre Centre.

(** Twelve ticks towards the upper left corner: the ship is held at
    (1, 2). *)
Definition cornered : SpaceUserData := fst (session (List.repeat retreat 12)).

(** The ship climbs to the row of the asteroids and waits: at tick 70 it
    has been hit once and recovers, and one asteroid has been recycled. *)
Definition toTheTop (ticks : nat) : list Input :=
  List.repeat climb 8 ++ List.repeat idle (ticks - 8).

Definition bruised : SpaceUserData := fst (session (toTheTop 70)).

(** The same ship at tick 144: the third hit ended the game. *)
Definition crashed : SpaceUserData := fst (session (toTheTop 144)).

(** That game restarted, five ticks later. *)
Definition restarted : SpaceUserData :=
  fst (session (toTheTop 144 ++ pressRestart :: List.repeat idle 5)).

(** The ship stays in the middle and lets the asteroids pass: at tick 126
    the score is 4 and a third asteroid has joined. *)
Definition crowded : SpaceUserData := fst (session (List.repeat idle 126)).

(** A component whose application is named by a string and whose renderer
    is a number. *)
Definition demoProps : UTSPClient.Props string Z :=
  UTSPClient.mkProps "SpaceDemo"%string 1%Z 60 20 true.

Definition className (name : string) : string := name.

Definition demoKey : string :=
  UTSPClient.depsKey className Js.toString demoProps.

Definition mounted : UTSPClient.Refs unit :=
  UTSPClient.mkRefs (Some tt) None None.

(** The refs once a runtime runs for [demoProps]. *)
Definition running : UTSPClient.Refs unit :=
  UTSPClient.mkRefs (Some tt) (Some 0%nat) (Some demoKey).

Definition noEvents : list (UTSPClient.Event string Z unit) := [].

(** The log once that runtime runs. *)
Definition firstRun : list (UTSPClient.Event string Z unit) :=
  [UTSPClient.InnerHTMLSet tt ""%string;
   UTSPClient.Constructed 0%nat
     (UTSPClient.mkOptions "standalone"%string "SpaceDemo"%string tt 1%Z 60 20 true);
   UTSPClient.Started 0%nat].

(** The same application on a larger terminal. *)
Definition largerProps : UTSPClient.Props string Z :=
  UTSPClient.mkProps "SpaceDemo"%string 1%Z 80 24 true.

End Examples.

(* ====================================================================== *)
(** ** Properties of SpaceDemo *)
(* ====================================================================== *)

Module SpaceDemoFacts.

Import SpaceDemo.

(** *** Comparisons and constants *)

Lemma ltb_lt (x y : Q) : Js.ltb x y = true <-> x < y.
Proof.
  unfold Js.ltb. rewrite negb_true_iff. split.
  - intros H. apply Qnot_le_lt. intros Hle. apply Qle_bool_iff in Hle. congruence.
  - intros H. destruct (Qle_bool y x) eqn:E; [|reflexivity].
    apply Qle_bool_iff in E. exfalso. exact (Qlt_not_le _ _ H E).
Qed.

Lemma ltb_ge (x y : Q) : Js.ltb x y = false <-> y <= x.
Proof.
  unfold Js.ltb. rewrite negb_false_iff. apply Qle_bool_iff.
Qed.

Lemma edge_offset (r : Q) : 0 <= r -> r < 1 -> 0 <= r * (15 / 2 * 0.4) <= 3.
Proof.
  intros. setoid_replace (15 / 2 * 0.4) with 3 using relation Qeq by reflexivity.
  lra.
Qed.

(** [Array.from] fills exactly [n] slots. *)
Lemma arrayFrom_length {A : Type} (f : Rand A) (n : nat) : forall k l k',
  arrayFrom n f k = (l, k') -> length l = n.
Proof.
  induction n as [|n IH]; intros k l k'; cbn.
  - intros [= <- <-]. reflexivity.
  - unfold bind, ret. destruct (f k) as [a k1].
    destruct (arrayFrom n f k1) as [rest k2] eqn:E.
    intros [= <- <-]. cbn. f_equal. eapply IH, E.
Qed.

Section Facts.
Variable rnd : nat -> Q.

(** *** What [createAsteroid] returns *)

(** Its horizontal position comes from the last draw it makes; its row is
    within the playable range when the draws are in [0, 1). *)
Lemma createAsteroid_draws score k :
  exists y c j, createAsteroid rnd score k = (mkAsteroid (Js.num WIDTH + rnd j * 30) y c, S j)
   /\ ((forall n, 0 <= rnd n < 1) -> 2 <= y <= 17).
Proof.
  unfold createAsteroid, bind, ret, random. cbv zeta.
  change (Js.num (HEIGHT - 3 - 2)) with 15.
  change (Js.num (HEIGHT - 3)) with 17.
  change (Js.num 2) with 2.
  set (cb := Qmin 1 (Js.num score / Js.num DIFFICULTY_FULL_AT)).
  destruct (Js.ltb cb 1).
  - destruct (Js.gtb (rnd (S k)) cb).
    + eexists _, _, _. split; [reflexivity|]. intros ok.
      pose proof (ok (S (S (S k)))) as [Hlo Hhi].
      pose proof (edge_offset _ Hlo Hhi).
      destruct (Js.ltb _ _); split; lra.
    + eexists _, _, _. split; [reflexivity|]. intros ok.
      pose proof (ok (S (S k))) as [? ?]. split; lra.
  - eexists _, _, _. split; [reflexivity|]. intros ok.
    pose proof (ok (S k)) as [? ?]. split; lra.
Qed.

(** *** One pass of the collision loop *)

(** An asteroid left of -2 is left of the ship, whose grid column is at
    least 1: it cannot collide. *)
Lemma floor_offscreen (x : Q) : x < -2 -> (Js.floor x <= -2)%Z.
Proof.
  intros H. unfold Js.floor.
  change (-2)%Z with (Qfloor (-2)). apply Qfloor_resp_le. lra.
Qed.

Lemma no_hit_offscreen (gx gy ax ay : Z) :
  (1 <= gx)%Z -> (ax <= -2)%Z ->
  ((ay =? gy) && (ax >=? gx) && (ax <=? gx + 2)
   || ((ay =? gy - 1) || (ay =? gy + 1)) && (ax =? gx + 1))%Z = false.
Proof.
  intros.
  assert ((ax >=? gx)%Z = false) as -> by lia.
  assert ((ax =? gx + 1)%Z = false) as -> by lia.
  rewrite !andb_false_r. reflexivity.
Qed.

Lemma createAsteroid_spawned score k a k' :
  createAsteroid rnd score k = (a, k') -> spawned rnd a.
Proof. intros E. exists score, k. rewrite E. reflexivity. Qed.

(** The end of the loop body either leaves the state alone or recycles the
    asteroid and counts one point. *)
Lemma recycleOffscreen_spec slots i m st k st' k' :
  recycleOffscreen rnd slots i m st k = (st', k') ->
  (Js.ltb (asteroid_x m) (-2) = false /\ st' = st) \/
  (Js.ltb (asteroid_x m) (-2) = true /\ score st' = (score st + 1)%Z /\
   exists b extra, spawned rnd b /\ passed rnd i st st' b extra).
Proof.
  unfold recycleOffscreen, bind, ret.
  destruct (Js.ltb (asteroid_x m) (-2)) eqn:Hoff.
  - destruct (createAsteroid rnd (score st) k) as [b k1] eqn:Eb.
    cbn [score set_score set_asteroids asteroids].
    rewrite length_insert.
    match goal with |- context [if ?c then _ else _] => destruct c eqn:Hpush end.
    + match goal with |- context [createAsteroid rnd ?s k1] =>
        destruct (createAsteroid rnd s k1) as [p k2] eqn:Ep end.
      intros [= <- <-]. right. split; [reflexivity|]. split; [reflexivity|].
      exists b, [p]. split; [eauto using createAsteroid_spawned|].
      split; [reflexivity|]. right. exists p.
      split; [reflexivity|]. split; [eauto using createAsteroid_spawned|].
      apply Z.ltb_lt in Hpush. unfold ASTEROIDS_MAX in *. lia.
    + intros [= <- <-]. right. split; [reflexivity|]. split; [reflexivity|].
      exists b, []. split; [eauto using createAsteroid_spawned|].
      split; [cbn; rewrite app_nil_r; reflexivity | left; reflexivity].
  - intros [= <- <-]. left. split; reflexivity.
Qed.

Lemma collides_offscreen gx gy a :
  (1 <= gx)%Z -> offscreen a = true ->
  collides gx gy (mkAsteroid (asteroid_x a - SPEED_ASTEROID) (asteroid_y a)
                             (asteroid_char a)) = false.
Proof.
  intros Hgx Hoff. unfold collides. cbn [asteroid_x asteroid_y].
  apply no_hit_offscreen; [assumption|].
  apply floor_offscreen, ltb_lt, Hoff.
Qed.

(** The array and the score after one pass. *)
Lemma asteroidStep_spec gx gy slots i a st k st' k' :
  asteroidStep rnd gx gy slots i a st k = (st', k') ->
  exists b extra,
    passed rnd i st st' b extra
    /\ ((1 <= gx)%Z -> offscreen a = true ->
        spawned rnd b /\ score st' = (score st + 1)%Z)
    /\ (offscreen a = false -> score st' = score st).
Proof.
  unfold asteroidStep. cbv zeta.
  set (moved := mkAsteroid _ _ _).
  set (st0 := set_asteroids _ st).
  assert (Hrec : forall s, asteroids s = <[i:=moved]> (asteroids st) ->
                  score s = score st ->
                  recycleOffscreen rnd slots i moved s k = (st', k') ->
                  exists b extra,
                    passed rnd i st st' b extra
                    /\ ((1 <= gx)%Z -> offscreen a = true ->
                        spawned rnd b /\ score st' = (score st + 1)%Z)
                    /\ (offscreen a = false -> score st' = score st)).
  { intros s Hs Hsc E. apply recycleOffscreen_spec in E.
    change (Js.ltb (asteroid_x moved) (-2)) with (offscreen a) in E.
    destruct E as [[Hoff ->] | (Hoff & Hsc' & b & extra & Hb & Hp & Hx)].
    - exists moved, []. repeat split.
      + rewrite Hs, app_nil_r. reflexivity.
      + left; reflexivity.
      + congruence.
      + congruence.
      + auto.
    - exists b, extra. repeat split.
      + rewrite Hp, Hs, list_insert_insert_eq. reflexivity.
      + rewrite Hs, length_insert in Hx. exact Hx.
      + assumption.
      + lia.
      + congruence. }
  destruct (collides gx gy moved) eqn:Hc; [|apply Hrec; reflexivity].
  destruct (invincibilityFrames st0 <=? 0)%Z; [|apply Hrec; reflexivity].
  destruct (lives _ <=? 0)%Z; [apply Hrec; reflexivity|].
  unfold bind, ret.
  match goal with |- context [createAsteroid rnd ?s k] =>
    destruct (createAsteroid rnd s k) as [b k1] eqn:Eb end.
  intros [= <- <-]. exists b, []. repeat split.
  - cbn. rewrite list_insert_insert_eq, app_nil_r. reflexivity.
  - left; reflexivity.
  - exfalso. pose proof (collides_offscreen gx gy a ltac:(assumption) ltac:(assumption)) as X.
    fold moved in X. congruence.
  - exfalso. pose proof (collides_offscreen gx gy a ltac:(assumption) ltac:(assumption)) as X.
    fold moved in X. congruence.
Qed.

Lemma asteroidStep_length gx gy slots i a st k st' k' :
  asteroidStep rnd gx gy slots i a st k = (st', k') ->
  (length (asteroids st) <= length (asteroids st')
   <= Nat.max (length (asteroids st)) 10)%nat
  /\ Nat.max (length (asteroids st')) 10 = Nat.max (length (asteroids st)) 10.
Proof.
  intros E. apply asteroidStep_spec in E as (b & extra & [Hl Hx] & _).
  rewrite Hl, length_app, length_insert.
  change (Z.to_nat ASTEROIDS_MAX) with 10%nat in Hx.
  destruct Hx as [-> | (p & -> & _ & Hlt)]; cbn [length]; lia.
Qed.

Ltac unfold_passes :=
  unfold passesLeft in *; change (Z.to_nat ASTEROIDS_MAX) with 10%nat in *.

(** *** The collision loop *)

(** Fuel beyond [passesLeft] changes nothing: the loop ends because the
    index runs off the array, and [loopFuel] passes are enough. *)
Lemma asteroidLoop_fuel gx gy slots fuel fuel' : forall i st k,
  (passesLeft i st <= fuel)%nat -> (passesLeft i st <= fuel')%nat ->
  asteroidLoop rnd gx gy slots fuel i st k = asteroidLoop rnd gx gy slots fuel' i st k.
Proof.
  revert fuel'. induction fuel as [|fuel IH]; intros fuel' i st k Hf Hf'.
  - destruct fuel' as [|fuel']; [reflexivity|]. cbn.
    destruct (asteroids st !! i) eqn:Hi; [|reflexivity].
    apply lookup_lt_Some in Hi. unfold_passes. lia.
  - destruct fuel' as [|fuel'].
    + cbn. destruct (asteroids st !! i) eqn:Hi; [|reflexivity].
      apply lookup_lt_Some in Hi. unfold_passes. lia.
    + cbn. destruct (asteroids st !! i) as [a|] eqn:Hi; [|reflexivity].
      unfold bind.
      destruct (asteroidStep rnd gx gy slots i a st k) as [st1 k1] eqn:E.
      apply lookup_lt_Some in Hi.
      apply asteroidStep_length in E as [_ Hmax].
      apply IH; unfold_passes; lia.
Qed.

Lemma asteroidLoop_length gx gy slots fuel : forall i st k st' k',
  asteroidLoop rnd gx gy slots fuel i st k = (st', k') ->
  (length (asteroids st) <= length (asteroids st')
   <= Nat.max (length (asteroids st)) 10)%nat.
Proof.
  induction fuel as [|fuel IH]; intros i st k st' k'; cbn.
  - intros [= <- <-]. lia.
  - destruct (asteroids st !! i) as [a|] eqn:Hi; [|intros [= <- <-]; lia].
    unfold bind.
    destruct (asteroidStep rnd gx gy slots i a st k) as [st1 k1] eqn:E.
    intros El. apply IH in El. apply asteroidStep_length in E. lia.
Qed.

(** What the loop leaves alone. *)
Lemma recycleOffscreen_frame slots i m st k st' k' :
  recycleOffscreen rnd slots i m st k = (st', k') ->
  sameScene st st' /\ sameHealth st st'.
Proof.
  unfold recycleOffscreen, bind, ret, sameScene, sameHealth.
  destruct (Js.ltb (asteroid_x m) (-2)).
  - destruct (createAsteroid rnd (score st) k) as [b k1].
    match goal with |- context [if ?c then _ else _] => destruct c end.
    + match goal with |- context [createAsteroid rnd ?s k1] =>
        destruct (createAsteroid rnd s k1) as [p k2] end.
      intros [= <- <-]. cbn. tauto.
    + intros [= <- <-]. cbn. tauto.
  - intros [= <- <-]. tauto.
Qed.

Lemma asteroidStep_scene gx gy slots i a st k st' k' :
  asteroidStep rnd gx gy slots i a st k = (st', k') -> sameScene st st'.
Proof.
  unfold asteroidStep. cbv zeta.
  set (moved := mkAsteroid _ _ _).
  assert (Hrec : forall s, sameScene st s ->
            recycleOffscreen rnd slots i moved s k = (st', k') -> sameScene st st').
  { intros s Hs E. apply recycleOffscreen_frame in E as [E _].
    unfold sameScene in *. intuition congruence. }
  destruct (collides gx gy moved).
  - destruct (invincibilityFrames _ <=? 0)%Z.
    + destruct (lives _ <=? 0)%Z.
      * apply Hrec. unfold sameScene. cbn. tauto.
      * unfold bind, ret.
        match goal with |- context [createAsteroid rnd ?s k] =>
          destruct (createAsteroid rnd s k) as [b k1] end.
        intros [= <- <-]. unfold sameScene. cbn. tauto.
    + apply Hrec. unfold sameScene. cbn. tauto.
  - apply Hrec. unfold sameScene. cbn. tauto.
Qed.

(** During recovery a pass changes neither [lives] nor [gameOver] nor the
    timer. *)
Lemma asteroidStep_recovering gx gy slots i a st k st' k' :
  (invincibilityFrames st > 0)%Z ->
  asteroidStep rnd gx gy slots i a st k = (st', k') -> sameHealth st st'.
Proof.
  intros Hinv. unfold asteroidStep. cbv zeta.
  set (moved := mkAsteroid _ _ _).
  cbn [invincibilityFrames set_asteroids].
  assert ((invincibilityFrames st <=? 0)%Z = false) as -> by lia.
  destruct (collides gx gy moved); intros E;
    apply recycleOffscreen_frame in E as [_ E]; exact E.
Qed.

Lemma asteroidLoop_scene gx gy slots fuel : forall i st k st' k',
  asteroidLoop rnd gx gy slots fuel i st k = (st', k') -> sameScene st st'.
Proof.
  induction fuel as [|fuel IH]; intros i st k st' k'; cbn.
  - intros [= <- <-]. unfold sameScene. tauto.
  - destruct (asteroids st !! i) as [a|];
      [|intros [= <- <-]; unfold sameScene; tauto].
    unfold bind.
    destruct (asteroidStep rnd gx gy slots i a st k) as [st1 k1] eqn:E.
    intros El. apply IH in El. apply asteroidStep_scene in E.
    unfold sameScene in *. intuition congruence.
Qed.

Lemma asteroidLoop_recovering gx gy slots fuel : forall i st k st' k',
  (invincibilityFrames st > 0)%Z ->
  asteroidLoop rnd gx gy slots fuel i st k = (st', k') -> sameHealth st st'.
Proof.
  induction fuel as [|fuel IH]; intros i st k st' k' Hinv; cbn.
  - intros [= <- <-]. unfold sameHealth. tauto.
  - destruct (asteroids st !! i) as [a|];
      [|intros [= <- <-]; unfold sameHealth; tauto].
    unfold bind.
    destruct (asteroidStep rnd gx gy slots i a st k) as [st1 k1] eqn:E.
    apply asteroidStep_recovering in E; [|assumption].
    intros El. apply IH in El.
    + unfold sameHealth in *. intuition congruence.
    + destruct E as (_ & -> & _). assumption.
Qed.

(** *** The phases of a tick *)

Lemma prepareTick_spec user st k st1 k1 :
  prepareTick rnd user st k = (st1, k1) ->
  asteroids st1 = asteroids st /\ score st1 = score st /\
  lives st1 = lives st /\ gameOver st1 = gameOver st /\
  invincibilityFrames st1 =
    (if (invincibilityFrames st >? 0)%Z
     then invincibilityFrames st - 1 else invincibilityFrames st)%Z /\
  shipX st1 = Qmax 1 (Qmin 15 (shipX st + getAxis user "MoveX" * SPEED_SHIP)) /\
  shipY st1 = Qmax 2 (Qmin (Js.num (HEIGHT - 3))
                           (shipY st + getAxis user "MoveY" * SPEED_SHIP)) /\
  starLayerFar st1 = starLayerFar st /\ starLayerNear st1 = starLayerNear st /\
  gameLayer st1 = gameLayer st /\ uiLayer st1 = uiLayer st.
Proof.
  unfold prepareTick, bind, ret. cbv zeta.
  match goal with |- context [scrollStars rnd ?l ?v k] =>
    destruct (scrollStars rnd l v k) as [far k0] end.
  match goal with |- context [scrollStars rnd ?l ?v k0] =>
    destruct (scrollStars rnd l v k0) as [near k2] end.
  intros [= <- <-].
  destruct (invincibilityFrames st >? 0)%Z; cbn; tauto.
Qed.

Lemma renderAll_spec st c st' :
  renderAll st = (c, st') ->
  sameGame st st' /\
  (c = match uiOrders st with Some _ => Js.Normal | None => Js.Throw Js.RangeError end).
Proof.
  unfold renderAll, renderUI, renderGame. cbv zeta.
  assert (Hui : forall s, lives s = lives st -> score s = score st ->
              gameOver s = gameOver st -> uiOrders s = uiOrders st).
  { intros s Hl Hs Hg. unfold uiOrders. rewrite Hl, Hs, Hg. reflexivity. }
  rewrite Hui by reflexivity.
  clear Hui.
  destruct (uiOrders st); intros [= <- <-];
    (split; [unfold sameGame, sameHealth; cbn; repeat split; reflexivity | reflexivity]).
Qed.

(** The three phases of a played tick. *)
Lemma playTick_phases user slots st k :
  exists st1 k1 st2 k2 c st3,
    prepareTick rnd user st k = (st1, k1) /\
    asteroidLoop rnd (Js.floor (shipX st1)) (Js.floor (shipY st1)) slots
                 (loopFuel st1) 0 st1 k1 = (st2, k2) /\
    ((slots = O /\ renderAll st2 = (c, st3)) \/
     (slots <> O /\ c = Js.Throw Js.TypeError /\ st3 = st2)) /\
    playTick rnd user slots st k = (c, st3, k2).
Proof.
  unfold playTick, bind.
  destruct (prepareTick rnd user st k) as [st1 k1] eqn:Ep.
  destruct (asteroidLoop _ _ _ _ _ _ st1 k1) as [st2 k2] eqn:El.
  destruct slots as [|slots].
  - destruct (renderAll st2) as [c st3] eqn:Er.
    exists st1, k1, st2, k2, c, st3. unfold ret. rewrite Er.
    split; [reflexivity|]. split; [exact El|]. split; [left; auto | reflexivity].
  - exists st1, k1, st2, k2, (Js.Throw Js.TypeError), st2. unfold ret.
    split; [reflexivity|]. split; [exact El|]. split; [right; auto | reflexivity].
Qed.

(** The two ways in which a call of [updateUser] on a user with data goes:
    it returns at once, or it plays a tick from the state it was given or
    from that state reset. *)
Lemma updateUser_cases user st k :
  data user = Some st ->
  (gameOver st = true /\ getButtonJustPressed user "Restart" = false /\
   updateUser rnd user k = mkOutcome Js.Normal (Some st) k) \/
  (exists st0 k0 slots c st' k',
     ((gameOver st = false /\ st0 = st /\ k0 = k /\ slots = O) \/
      (gameOver st = true /\ getButtonJustPressed user "Restart" = true /\
       resetGame rnd st k = (st0, k0) /\
       slots = (Z.to_nat ASTEROIDS_START - length (asteroids st))%nat)) /\
     playTick rnd user slots st0 k0 = (c, st', k') /\
     updateUser rnd user k = mkOutcome c (Some st') k').
Proof.
  intros Hd. unfold updateUser. rewrite Hd.
  destruct (gameOver st) eqn:Hg.
  - destruct (getButtonJustPressed user "Restart") eqn:Hr; [|left; auto].
    right. unfold bind.
    destruct (resetGame rnd st k) as [st0 k0] eqn:Er.
    destruct (playTick rnd user _ st0 k0) as [[c st'] k'] eqn:Ep.
    exists st0, k0, (Z.to_nat ASTEROIDS_START - length (asteroids st))%nat, c, st', k'.
    split; [right; auto | split; [exact Ep | reflexivity]].
  - right.
    destruct (playTick rnd user 0 st k) as [[c st'] k'] eqn:Ep.
    exists st, k, O, c, st', k'.
    split; [left; auto | split; [exact Ep | reflexivity]].
Qed.

Lemma playTick_ship user slots st k c st' k' :
  playTick rnd user slots st k = (c, st', k') ->
  shipX st' = Qmax 1 (Qmin 15 (shipX st + getAxis user "MoveX" * SPEED_SHIP)) /\
  shipY st' = Qmax 2 (Qmin (Js.num (HEIGHT - 3))
                           (shipY st + getAxis user "MoveY" * SPEED_SHIP)).
Proof.
  intros E.
  destruct (playTick_phases user slots st k)
    as (st1 & k1 & st2 & k2 & c0 & st3 & Hp & Hl & Hr & Ht).
  rewrite Ht in E. injection E as <- <- <-.
  apply prepareTick_spec in Hp as (_ & _ & _ & _ & _ & Hx & Hy & _).
  apply asteroidLoop_scene in Hl as (_ & _ & _ & _ & _ & _ & Hx2 & Hy2).
  destruct Hr as [[_ Hr] | (_ & _ & ->)].
  - apply renderAll_spec in Hr as [(_ & _ & _ & Hx3 & Hy3 & _) _].
    split; congruence.
  - split; congruence.
Qed.

Lemma updateUser_running user st k :
  data user = Some st -> gameOver st = false ->
  updateUser rnd user k = finish (playTick rnd user 0 st k).
Proof. intros Hd Hg. unfold updateUser. rewrite Hd, Hg. reflexivity. Qed.

(** *** The claims *)

Lemma ship_clamped (lo hi x : Q) : lo <= hi -> lo <= Qmax lo (Qmin hi x) <= hi.
Proof.
  intros H. split; [apply Q.le_max_l|].
  apply Q.max_lub; [assumption | apply Q.le_min_l].
Qed.

Lemma floor_ship (x : Q) : (1 <= Js.floor (Qmax 1 (Qmin 15 x)))%Z.
Proof.
  unfold Js.floor. change 1%Z with (Qfloor 1). apply Qfloor_resp_le.
  apply Q.le_max_l.
Qed.

(** Claim C2: the ship stays within its clamped bounds.  In every state
    reachable from [initUser] by calls of [updateUser] whose axes answer
    within [-1, 1], [1 <= shipX <= 15] and [2 <= shipY <= HEIGHT - 3]
    (= 17). *)
Theorem ship_stays_in_bounds st :
  reachable rnd st ->
  (1 <= shipX st <= 15) /\ (2 <= shipY st <= Js.num (HEIGHT - 3)).
Proof.
  induction 1 as [k | user k st st' Hreach IH Hd Haxes Hafter].
  - unfold initialData, bind, ret.
    destruct (generateStars rnd 40 _ k) as [far k1].
    destruct (generateStars rnd 25 _ k1) as [near k2].
    destruct (arrayFrom _ _ k2) as [rocks k3].
    cbn [fst shipX shipY]. repeat split; apply Qle_bool_iff; reflexivity.
  - destruct (updateUser_cases user st k Hd)
      as [(_ & _ & E) | (st0 & k0 & slots & c & st1 & k1 & _ & Ep & E)];
      rewrite E in Hafter; injection Hafter as <-.
    + exact IH.
    + apply playTick_ship in Ep as [-> ->].
      split; apply ship_clamped; apply Qle_bool_iff; reflexivity.
Qed.

Section MathRandom.

(** [Math.random()] returns a number in [0, 1). *)
Hypothesis random_ok : forall n, 0 <= rnd n < 1.

(** A spawned asteroid is right of the screen, within the playable rows. *)
Lemma spawned_onscreen a :
  spawned rnd a ->
  Js.num WIDTH <= asteroid_x a /\ 2 <= asteroid_y a <= Js.num (HEIGHT - 3)
  /\ offscreen a = false.
Proof.
  intros (s & k & ->).
  destruct (createAsteroid_draws s k) as (y & c & j & -> & Hy).
  specialize (Hy random_ok). cbn [fst asteroid_x asteroid_y].
  destruct (random_ok j) as [Hj _].
  change (Js.num WIDTH) with 60. change (Js.num (HEIGHT - 3)) with 17.
  split; [lra|]. split; [exact Hy|].
  apply ltb_ge. cbn [asteroid_x]. unfold SPEED_ASTEROID. lra.
Qed.

(** The loop from index [i]: the elements before [i] stay, every element
    from [i] on that leaves the screen is replaced by a spawned asteroid,
    and the score counts them. *)
Lemma asteroidLoop_recycles gx gy (Hgx : (1 <= gx)%Z) fuel : forall i st k st' k',
  (passesLeft i st <= fuel)%nat ->
  asteroidLoop rnd gx gy 0 fuel i st k = (st', k') ->
  (forall j, (j < i)%nat -> asteroids st' !! j = asteroids st !! j) /\
  (forall j a, (i <= j)%nat -> asteroids st !! j = Some a -> offscreen a = true ->
     exists b, asteroids st' !! j = Some b /\ spawned rnd b) /\
  score st' = (score st + leavers (drop i (asteroids st)))%Z.
Proof.
  induction fuel as [|fuel IH]; intros i st k st' k' Hfuel; cbn [asteroidLoop].
  - intros [= <- <-]. unfold_passes.
    assert (Hi : (length (asteroids st) <= i)%nat) by lia.
    split; [reflexivity|]. split.
    + intros j a Hj Ha. apply lookup_lt_Some in Ha. lia.
    + unfold leavers. rewrite drop_ge by exact Hi. cbn. lia.
  - destruct (asteroids st !! i) as [a|] eqn:Hi.
    + unfold bind.
      destruct (asteroidStep rnd gx gy 0 i a st k) as [st1 k1] eqn:E.
      intros El.
      pose proof (lookup_lt_Some _ _ _ Hi) as Hlt.
      pose proof (asteroidStep_length _ _ _ _ _ _ _ _ _ E) as [_ Hmax].
      apply asteroidStep_spec in E as (b & extra & [Hl Hx] & Hoff & Hon).
      apply IH in El as (Hpre & Hpost & Hscore); [|unfold_passes; lia].
      assert (Hother : forall j, j <> i -> (j < length (asteroids st))%nat ->
                asteroids st1 !! j = asteroids st !! j).
      { intros j Hne Hj. rewrite Hl, lookup_app_l by (rewrite length_insert; exact Hj).
        apply list_lookup_insert_ne. congruence. }
      assert (Hself : asteroids st1 !! i = Some b).
      { rewrite Hl, lookup_app_l by (rewrite length_insert; exact Hlt).
        apply list_lookup_insert_eq. exact Hlt. }
      split; [|split].
      * intros j Hj. rewrite Hpre by lia. apply Hother; lia.
      * intros j a0 Hj Ha0 Hoff0.
        destruct (decide (j = i)) as [-> | Hne].
        -- assert (a0 = a) as -> by congruence.
           exists b. split; [rewrite Hpre by lia; exact Hself|].
           apply Hoff; assumption.
        -- apply (Hpost j a0); [lia| |assumption].
           rewrite Hother; [assumption|assumption|].
           apply lookup_lt_Some in Ha0. exact Ha0.
      * rewrite Hscore, Hl.
        rewrite drop_app_le by (rewrite length_insert; lia).
        rewrite drop_insert_lt by lia.
        rewrite (drop_S _ _ _ Hi).
        unfold leavers. rewrite List.filter_app. cbn [List.filter].
        assert (Hextra : List.filter offscreen extra = []).
        { destruct Hx as [-> | (p & -> & Hp & _)]; [reflexivity|].
          cbn. apply spawned_onscreen in Hp as (_ & _ & ->). reflexivity. }
        rewrite Hextra, app_nil_r.
        destruct (offscreen a) eqn:Ha.
        -- destruct (Hoff Hgx eq_refl) as [_ ->]. cbn [length]. lia.
        -- rewrite Hon by reflexivity. lia.
    + intros [= <- <-].
      apply lookup_ge_None in Hi.
      split; [reflexivity|]. split.
      * intros j a Hj Ha. apply lookup_lt_Some in Ha. lia.
      * unfold leavers. rewrite drop_ge by exact Hi. cbn. lia.
Qed.

(** Claim C3: an asteroid recycles when it is off-screen.  With
    [Math.random()] in [0, 1), in every call of [updateUser] on a game that
    is not over, each asteroid whose x, once moved left by
    [SPEED_ASTEROID], is below -2 is replaced at its index by an asteroid
    made by [createAsteroid], with [x >= WIDTH] and [y] within
    [2, HEIGHT - 3]; and the score grows by exactly the number of those
    asteroids. *)
Theorem offscreen_asteroids_recycled user st k :
  data user = Some st -> gameOver st = false ->
  exists st',
    dataAfter (updateUser rnd user k) = Some st' /\
    (forall i a,
       asteroids st !! i = Some a ->
       asteroid_x a - SPEED_ASTEROID < -2 ->
       exists b,
         asteroids st' !! i = Some b /\ spawned rnd b /\
         Js.num WIDTH <= asteroid_x b /\
         2 <= asteroid_y b <= Js.num (HEIGHT - 3)) /\
    score st' = (score st + leavers (asteroids st))%Z.
Proof.
  intros Hd Hg. rewrite (updateUser_running user st k Hd Hg).
  destruct (playTick_phases user 0 st k)
    as (st1 & k1 & st2 & k2 & c & st3 & Hp & Hl & Hr & ->).
  destruct Hr as [[_ Hr] | [Hne _]]; [|congruence].
  exists st3. split; [reflexivity|].
  apply prepareTick_spec in Hp as (Ha1 & Hs1 & _ & _ & _ & Hx1 & _).
  apply renderAll_spec in Hr as [(_ & _ & Ha3 & _ & _ & Hs3 & _) _].
  apply asteroidLoop_recycles in Hl as (_ & Hpost & Hscore).
  - split.
    + intros i a Hi Hoff. rewrite <- Ha1 in Hi.
      destruct (Hpost i a) as (b & Hb & Hsp); [lia|exact Hi|apply ltb_lt; exact Hoff|].
      exists b. split; [rewrite Ha3; exact Hb|]. split; [exact Hsp|].
      apply spawned_onscreen in Hsp. tauto.
    + rewrite Hs3, Hscore, Hs1, Ha1. reflexivity.
  - rewrite Hx1. apply floor_ship.
  - unfold passesLeft, loopFuel. lia.
Qed.

End MathRandom.

(** Claim C8: game over freezes the state.  On a state with [gameOver]
    true and Restart not just pressed, [updateUser] returns normally with
    [user.data] as it was, every field and every layer included (no
    [setOrders], no [commit]), and without drawing a random number. *)
Theorem game_over_freezes_state user st k :
  data user = Some st ->
  gameOver st = true ->
  getButtonJustPressed user "Restart" = false ->
  updateUser rnd user k = mkOutcome Js.Normal (Some st) k.
Proof.
  intros Hd Hg Hr. unfold updateUser. rewrite Hd, Hg, Hr. reflexivity.
Qed.

(** Claim C4, amended: the asteroid list is bounded, not fixed in length.
    After any call of [updateUser] the number of asteroids is at most the
    larger of the number before and [ASTEROIDS_MAX]; on a game that is not
    over it is at least the number before; on a finished game without
    Restart it is the number before. *)
Theorem asteroid_count_bounded user st k :
  data user = Some st ->
  exists st',
    dataAfter (updateUser rnd user k) = Some st' /\
    (length (asteroids st') <= Nat.max (length (asteroids st)) (Z.to_nat ASTEROIDS_MAX))%nat /\
    (gameOver st = false -> (length (asteroids st) <= length (asteroids st'))%nat) /\
    (gameOver st = true -> getButtonJustPressed user "Restart" = false ->
     length (asteroids st') = length (asteroids st)).
Proof.
  intros Hd.
  destruct (updateUser_cases user st k Hd)
    as [(Hg & Hr & ->) | (st0 & k0 & slots & c & st1 & k1 & Hin & Ep & ->)].
  - exists st. cbn. split; [reflexivity|]. split; [lia|]. split; [congruence|auto].
  - exists st1. cbn [dataAfter]. split; [reflexivity|].
    destruct (playTick_phases user slots st0 k0)
      as (s1 & j1 & s2 & j2 & c0 & s3 & Hp & Hl & Hr & Ht).
    rewrite Ht in Ep. injection Ep as <- <- <-.
    apply prepareTick_spec in Hp as (Ha1 & _).
    apply asteroidLoop_length in Hl. rewrite Ha1 in Hl.
    assert (Ha3 : asteroids s3 = asteroids s2).
    { destruct Hr as [[_ Hr] | (_ & _ & ->)]; [|reflexivity].
      apply renderAll_spec in Hr as [(_ & _ & Ha3 & _) _]. exact Ha3. }
    rewrite Ha3. change (Z.to_nat ASTEROIDS_MAX) with 10%nat.
    destruct Hin as [(Hg & -> & -> & ->) | (Hg & Hr0 & Hreset & ->)].
    + split; [lia|]. split; [lia|congruence].
    + assert (Hlen : (length (asteroids st0) <= length (asteroids st))%nat).
      { revert Hreset. unfold resetGame, bind, ret.
        cbn [asteroids set_asteroids set_gameOver set_invincibilityFrames
             set_lives set_score set_shipY set_shipX].
        destruct (arrayFrom _ _ k) as [fresh kf] eqn:Ef.
        intros [= <- <-]. cbn [asteroids set_asteroids].
        rewrite (arrayFrom_length _ _ _ _ _ Ef), length_take. lia. }
      split; [lia|]. split; congruence.
Qed.

(** The array never shrinks while a tick is played. *)
Lemma playTick_length user slots st k c st' k' :
  playTick rnd user slots st k = (c, st', k') ->
  (length (asteroids st) <= length (asteroids st'))%nat.
Proof.
  intros Ep.
  destruct (playTick_phases user slots st k)
    as (s1 & j1 & s2 & j2 & c0 & s3 & Hp & Hl & Hr & Ht).
  rewrite Ht in Ep. injection Ep as <- <- <-.
  apply prepareTick_spec in Hp as (Ha1 & _).
  apply asteroidLoop_length in Hl. rewrite Ha1 in Hl.
  destruct Hr as [[_ Hr] | (_ & _ & ->)]; [|lia].
  apply renderAll_spec in Hr as [(_ & _ & -> & _) _]. lia.
Qed.

Lemma resetGame_length st k st0 k0 :
  resetGame rnd st k = (st0, k0) ->
  length (asteroids st0)
  = Nat.min (Z.to_nat ASTEROIDS_START) (length (asteroids st)).
Proof.
  unfold resetGame, bind, ret.
  cbn [asteroids set_asteroids set_gameOver set_invincibilityFrames
       set_lives set_score set_shipY set_shipX].
  destruct (arrayFrom _ _ k) as [fresh kf] eqn:Ef.
  intros [= <- <-]. cbn [asteroids set_asteroids].
  rewrite (arrayFrom_length _ _ _ _ _ Ef). apply length_take.
Qed.

(** Every state of a game holds at least [ASTEROIDS_START] asteroids. *)
Lemma reachable_asteroid_count st :
  reachable rnd st -> (Z.to_nat ASTEROIDS_START <= length (asteroids st))%nat.
Proof.
  induction 1 as [k | user k st st' Hreach IH Hd Haxes Hafter].
  - unfold initialData, bind, ret.
    destruct (generateStars rnd 40 _ k) as [far k1].
    destruct (generateStars rnd 25 _ k1) as [near k2].
    destruct (arrayFrom _ _ k2) as [rocks k3] eqn:Ef.
    cbn [fst asteroids]. rewrite (arrayFrom_length _ _ _ _ _ Ef). lia.
  - destruct (updateUser_cases user st k Hd)
      as [(_ & _ & E) | (st0 & k0 & slots & c & st1 & k1 & Hin & Ep & E)];
      rewrite E in Hafter; injection Hafter as <-; [exact IH|].
    apply playTick_length in Ep.
    destruct Hin as [(_ & -> & _) | (_ & _ & Hreset & _)]; [lia|].
    apply resetGame_length in Hreset. lia.
Qed.

(** So the restart of a game never leaves an empty slot in the array: no
    call of [updateUser] in a game throws [TypeError]. *)
Lemma reachable_no_TypeError user st k :
  reachable rnd st -> data user = Some st ->
  completion (updateUser rnd user k) <> Js.Throw Js.TypeError.
Proof.
  intros Hreach Hd. apply reachable_asteroid_count in Hreach.
  destruct (updateUser_cases user st k Hd)
    as [(_ & _ & ->) | (st0 & k0 & slots & c & st1 & k1 & Hin & Ep & ->)];
    [discriminate|].
  cbn [completion].
  assert (Hslots : slots = O)
    by (destruct Hin as [(_ & _ & _ & ->) | (_ & _ & _ & ->)]; lia).
  subst slots.
  destruct (playTick_phases user 0 st0 k0)
    as (s1 & j1 & s2 & j2 & c0 & s3 & _ & _ & Hr & Ht).
  rewrite Ht in Ep. injection Ep as <- <- <-.
  destruct Hr as [[_ Hr] | [Hne _]]; [|congruence].
  apply renderAll_spec in Hr as [_ ->].
  destruct (uiOrders s2); discriminate.
Qed.
Lemma uiOrders_some st :
  (0 <= lives st <= 3)%Z -> exists os, uiOrders st = Some os.
Proof.
  intros Hl. unfold uiOrders, Js.repeat.
  assert ((lives st <? 0)%Z = false) as -> by lia.
  assert ((3 - lives st <? 0)%Z = false) as -> by lia.
  eexists. reflexivity.
Qed.





Lemma playTick_recovering user slots st k st1 k1 c st' k' :
  prepareTick rnd user st k = (st1, k1) ->
  playTick rnd user slots st k = (c, st', k') ->
  (invincibilityFrames st1 > 0)%Z ->
  lives st' = lives st1 /\ gameOver st' = gameOver st1.
Proof.
  intros Hp Ht Hinv.
  destruct (playTick_phases user slots st k)
    as (s1 & j1 & s2 & j2 & c0 & s3 & Hp' & Hl & Hr & Ht').
  rewrite Hp in Hp'. injection Hp' as <- <-.
  rewrite Ht in Ht'. injection Ht' as -> -> ->.
  apply asteroidLoop_recovering in Hl as (Hl2 & _ & Hg2); [|exact Hinv].
  destruct Hr as [[_ Hr] | (_ & _ & ->)]; [|split; assumption].
  apply renderAll_spec in Hr as [(_ & _ & _ & _ & _ & _ & Hl3 & _ & Hg3) _].
  split; congruence.
Qed.

(** Claim C9: no damage during the recovery period.  In every call of
    [updateUser] that goes on to process collisions, from the state [st0]
    it enters the tick with, let [st1] be the state when the collision loop
    begins (after the one decrement of the timer).  If
    [invincibilityFrames st1 > 0] then the call leaves [lives] and
    [gameOver] as they are in [st1]; hence [lives] decreases only when
    [invincibilityFrames] has reached 0. *)
Theorem no_damage_while_recovering user st k st0 k0 st1 k1 :
  data user = Some st ->
  tickEntry rnd user st k = Some (st0, k0) ->
  prepareTick rnd user st0 k0 = (st1, k1) ->
  exists st',
    dataAfter (updateUser rnd user k) = Some st' /\
    ((invincibilityFrames st1 > 0)%Z ->
     lives st' = lives st1 /\ gameOver st' = gameOver st1) /\
    ((lives st' < lives st1)%Z -> (invincibilityFrames st1 <= 0)%Z).
Proof.
  intros Hd He Hp.
  assert (Hplay : exists slots c st' k',
            playTick rnd user slots st0 k0 = (c, st', k') /\
            dataAfter (updateUser rnd user k) = Some st').
  { destruct (updateUser_cases user st k Hd)
      as [(Hg & Hr & _) | (s0 & j0 & slots & c & st' & k' & Hin & Ep & ->)].
    - unfold tickEntry in He. rewrite Hg, Hr in He. discriminate.
    - exists slots, c, st', k'. split; [|reflexivity].
      unfold tickEntry in He.
      destruct Hin as [(Hg & -> & -> & _) | (Hg & Hr & Hreset & _)].
      + rewrite Hg in He. injection He as <- <-. exact Ep.
      + rewrite Hg, Hr, Hreset in He. injection He as <- <-. exact Ep. }
  destruct Hplay as (slots & c & st' & k' & Ep & Hafter).
  exists st'. split; [exact Hafter|].
  pose proof (playTick_recovering user slots st0 k0 st1 k1 c st' k' Hp Ep) as Hsafe.
  split; [exact Hsafe|].
  intros Hless.
  destruct (Z_le_gt_dec (invincibilityFrames st1) 0) as [Hle | Hgt]; [exact Hle|].
  destruct (Hsafe Hgt) as [Heq _]. lia.
Qed.

(** Claim C10: [renderUI] is safe under the lives bound.  For every state
    with [0 <= lives <= 3] both repeat counts, [lives] and [3 - lives], are
    non-negative and neither [String.repeat] throws: the red string is
    [lives] hearts, the gray string the other [3 - lives], three hearts
    together.  [renderUI] completes normally; it gives the UI layer the
    title, the red hearts at column 1 of row 1, the gray hearts right
    behind them at column [1 + lives], the score and the text of the game
    phase, commits that list once, and changes nothing else. *)
Theorem hearts_total_three st :
  (0 <= lives st <= 3)%Z ->
  (0 <= lives st)%Z /\ (0 <= 3 - lives st)%Z /\
  exists red gray st',
    Js.repeat "♥" (lives st) = Some red /\
    Js.repeat "♥" (3 - lives st) = Some gray /\
    String.append red gray = "♥♥♥"%string /\
    ((lives st = 0%Z /\ red = ""%string /\ gray = "♥♥♥"%string) \/
     (lives st = 1%Z /\ red = "♥"%string /\ gray = "♥♥"%string) \/
     (lives st = 2%Z /\ red = "♥♥"%string /\ gray = "♥"%string) \/
     (lives st = 3%Z /\ red = "♥♥♥"%string /\ gray = ""%string)) /\
    let ui :=
      [text 1 0 "SPACE DEMO" COLOR_WHITE COLOR_DEEP_SPACE;
       text 1 1 red COLOR_GAMEOVER TRANSPARENT;
       text (1 + lives st) 1 gray COLOR_LOST_HEART TRANSPARENT;
       text (WIDTH - 11) 0 (String.append "Score: " (Js.toString (score st)))
            COLOR_GOLD COLOR_DEEP_SPACE]
      ++ (if gameOver st
          then [text 22 8 "GAME OVER!" COLOR_GAMEOVER COLOR_DEEP_SPACE;
                text 17 10 "Press SPACE to restart" COLOR_WHITE COLOR_DEEP_SPACE]
          else [text 1 (HEIGHT - 1) "Avoid asteroids! [WASD] or Stick"
                     COLOR_DIM_STAR TRANSPARENT]) in
    uiOrders st = Some ui /\
    renderUI st = (Js.Normal, st') /\
    orders (uiLayer st') = ui /\
    committed (uiLayer st') = committed (uiLayer st) ++ [ui] /\
    st' = set_uiLayer (uiLayer st') st.
Proof.
  intros Hl. split; [lia|]. split; [lia|].
  unfold renderUI, uiOrders, HEART.
  assert (Hcases : lives st = 0%Z \/ lives st = 1%Z \/ lives st = 2%Z \/ lives st = 3%Z)
    by lia.
  destruct Hcases as [E | [E | [E | E]]]; rewrite E;
    eexists _, _, _; (split; [reflexivity|]); (split; [reflexivity|]);
    (split; [reflexivity|]); (split; [tauto|]);
    cbv zeta; repeat split; reflexivity.
Qed.

End Facts.

Import Examples.

(** *** The claims on concrete games *)

Lemma zeros_ok : forall n, 0 <= zeros n < 1.
Proof. intros n. unfold zeros. split; lra. Qed.

Lemma pilotAxis_range t : -1 <= pilotAxis t <= 1.
Proof.
  unfold pilotAxis.
  destruct (t <? 8)%nat; [split; lra|].
  destruct ((48 <=? t)%nat && (t <? 51)%nat); [split; lra|].
  destruct ((100 <=? t)%nat && (t <? 103)%nat); split; lra.
Qed.

Lemma pilot_axes st restart t : axesInRange (userWith st restart (pilotAxis t)).
Proof.
  unfold axesInRange, userWith. cbn.
  split; [split; lra | apply pilotAxis_range].
Qed.

(** The pilot's flight stays within the reachable states. *)
Lemma fly_reachable rnd n : forall t st k st',
  reachable rnd st ->
  dataAfter (fly rnd n t st k) = Some st' ->
  reachable rnd st'.
Proof.
  induction n as [|n IH]; intros t st k st' Hreach; cbn [fly].
  - cbn. intros [= <-]. exact Hreach.
  - cbv zeta.
    remember (updateUser rnd (userWith (Some st) false (pilotAxis t)) k) as o eqn:Ho.
    assert (Hstep : forall s, dataAfter o = Some s -> reachable rnd s).
    { intros s Hs. rewrite Ho in Hs.
      apply (reach_step rnd (userWith (Some st) false (pilotAxis t)) k st s Hreach
                        eq_refl (pilot_axes _ _ _) Hs). }
    clear Ho. destruct o as [c d j]. cbn [completion dataAfter drawsAfter] in *.
    destruct c as [|e]; destruct d as [s|]; cbn [dataAfter]; intros H;
      try discriminate.
    + apply (IH _ _ _ _ (Hstep s eq_refl) H).
    + apply Hstep. exact H.
Qed.

Lemma userAt_axes st i : axesInRange (userAt st i).
Proof.
  unfold axesInRange, userAt. cbn.
  destruct (moveX i), (moveY i); cbn; repeat split; lra.
Qed.

(** A played script stays within the reachable states. *)
Lemma play_reachable rnd script : forall st k,
  reachable rnd st -> reachable rnd (fst (play rnd script st k)).
Proof.
  induction script as [|i rest IH]; intros st k Hreach; cbn [play]; [exact Hreach|].
  cbv zeta.
  remember (updateUser rnd (userAt st i) k) as o eqn:Ho.
  assert (Hstep : forall s, dataAfter o = Some s -> reachable rnd s).
  { intros s Hs. rewrite Ho in Hs.
    apply (reach_step rnd (userAt st i) k st s Hreach eq_refl (userAt_axes _ _) Hs). }
  clear Ho. destruct o as [c d j]. cbn [completion dataAfter drawsAfter] in *.
  destruct c as [|e]; destruct d as [s|]; try exact Hreach.
  apply IH, Hstep. reflexivity.
Qed.

Lemma session_reachable script : reachable zeros (fst (session script)).
Proof. apply play_reachable, reach_init. Qed.

(** Claim C1 (lives never go negative) against the code.  From the state
    [initUser] leaves when [Math.random()] returns 0, 159 ticks of the pilot
    of [Examples.pilotAxis] end in a call of [updateUser] in which both
    asteroids hit the ship on its last life: the call leaves a reachable
    state with [lives = -1] and [gameOver] set, and throws [RangeError]
    from [renderUI]. *)
Theorem double_hit_takes_lives_below_zero :
  let o := fly zeros 159 0 (fst (initialData zeros 0%nat))
                (snd (initialData zeros 0%nat)) in
  completion o = Js.Throw Js.RangeError /\
  exists st,
    dataAfter o = Some st /\ reachable zeros st /\
    lives st = (-1)%Z /\ gameOver st = true.
Proof.
  intros o.
  assert (Hrun : completion o = Js.Throw Js.RangeError /\
                 option_map lives (dataAfter o) = Some (-1)%Z /\
                 option_map gameOver (dataAfter o) = Some true)
    by (vm_compute; repeat split; reflexivity).
  destruct Hrun as (Hc & Hl & Hg).
  split; [exact Hc|].
  destruct (dataAfter o) as [st|] eqn:Hs; [|discriminate].
  exists st. split; [reflexivity|]. split.
  - unfold o in Hs.
    exact (fly_reachable _ _ _ _ _ _ (reach_init zeros 0%nat) Hs).
  - cbn in Hl, Hg. split; congruence.
Qed.

(** C1: the same double hit on a hand-made state. *)
Lemma last_life_double_hit :
  let o := updateUser zeros (userWith (Some lastLife) false 0) 0%nat in
  completion o = Js.Throw Js.RangeError /\
  option_map lives (dataAfter o) = Some (-1)%Z /\
  option_map gameOver (dataAfter o) = Some true.
Proof. vm_compute. repeat split; reflexivity. Qed.

(** C2 after twelve ticks towards the upper left corner: both clamps hold
    the ship, at (1, 2). *)
Lemma ship_stays_in_bounds_witness :
  (shipX cornered == 1 /\ shipY cornered == 2) /\
  (1 <= shipX cornered <= 15) /\ (2 <= shipY cornered <= Js.num (HEIGHT - 3)).
Proof.
  split; [vm_compute; split; reflexivity|].
  exact (ship_stays_in_bounds zeros cornered (session_reachable _)).
Defined.

(** C3 on a game with one asteroid about to leave. *)
Lemma offscreen_asteroids_recycled_witness :
  exists st',
    dataAfter (updateUser zeros (userWith (Some leaving) false 0) 0%nat) = Some st' /\
    (forall i a,
       asteroids leaving !! i = Some a ->
       asteroid_x a - SPEED_ASTEROID < -2 ->
       exists b,
         asteroids st' !! i = Some b /\ spawned zeros b /\
         Js.num WIDTH <= asteroid_x b /\
         2 <= asteroid_y b <= Js.num (HEIGHT - 3)) /\
    score st' = (score leaving + leavers (asteroids leaving))%Z.
Proof.
  exact (offscreen_asteroids_recycled zeros zeros_ok
           (userWith (Some leaving) false 0) leaving 0%nat eq_refl eq_refl).
Defined.

(** C4 as stated fails: the third point of score adds a third asteroid. *)
Lemma asteroid_count_grows :
  length (asteroids leaving) = 2%nat /\
  option_map (fun s => length (asteroids s))
    (dataAfter (updateUser zeros (userWith (Some leaving) false 0) 0%nat))
  = Some 3%nat.
Proof. vm_compute. split; reflexivity. Qed.

(** C4, amended, on the same game. *)
Lemma asteroid_count_bounded_witness :
  exists st',
    dataAfter (updateUser zeros (userWith (Some leaving) false 0) 0%nat) = Some st' /\
    (length (asteroids st')
     <= Nat.max (length (asteroids leaving)) (Z.to_nat ASTEROIDS_MAX))%nat /\
    (gameOver leaving = false ->
     (length (asteroids leaving) <= length (asteroids st'))%nat) /\
    (gameOver leaving = true ->
     getButtonJustPressed (userWith (Some leaving) false 0) "Restart" = false ->
     length (asteroids st') = length (asteroids leaving)).
Proof.
  exact (asteroid_count_bounded zeros (userWith (Some leaving) false 0) leaving
           0%nat eq_refl).
Defined.


(** C8 on a finished game, Restart not pressed. *)
Lemma game_over_freezes_state_witness :
  updateUser zeros (userWith (Some overThree) false 0) 0%nat
  = mkOutcome Js.Normal (Some overThree) 0%nat.
Proof.
  exact (game_over_freezes_state zeros (userWith (Some overThree) false 0)
           overThree 0%nat eq_refl eq_refl eq_refl).
Defined.

(** C9 on a ship that is hit while it recovers. *)
Lemma no_damage_while_recovering_witness :
  let user := userWith (Some recovering) false 0 in
  let st1 := fst (prepareTick zeros user recovering 0%nat) in
  exists st',
    dataAfter (updateUser zeros user 0%nat) = Some st' /\
    ((invincibilityFrames st1 > 0)%Z ->
     lives st' = lives st1 /\ gameOver st' = gameOver st1) /\
    ((lives st' < lives st1)%Z -> (invincibilityFrames st1 <= 0)%Z).
Proof.
  intros user st1.
  apply (no_damage_while_recovering zeros user recovering 0%nat recovering 0%nat
           st1 (snd (prepareTick zeros user recovering 0%nat)));
    [reflexivity | reflexivity | apply surjective_pairing].
Defined.

(** C10 on a game with one life left. *)
Lemma hearts_total_three_witness :
  (0 <= lives lastLife)%Z /\ (0 <= 3 - lives lastLife)%Z /\
  exists red gray st',
    Js.repeat "♥" (lives lastLife) = Some red /\
    Js.repeat "♥" (3 - lives lastLife) = Some gray /\
    String.append red gray = "♥♥♥"%string /\
    ((lives lastLife = 0%Z /\ red = ""%string /\ gray = "♥♥♥"%string) \/
     (lives lastLife = 1%Z /\ red = "♥"%string /\ gray = "♥♥"%string) \/
     (lives lastLife = 2%Z /\ red = "♥♥"%string /\ gray = "♥"%string) \/
     (lives lastLife = 3%Z /\ red = "♥♥♥"%string /\ gray = ""%string)) /\
    let ui :=
      [text 1 0 "SPACE DEMO" COLOR_WHITE COLOR_DEEP_SPACE;
       text 1 1 red COLOR_GAMEOVER TRANSPARENT;
       text (1 + lives lastLife) 1 gray COLOR_LOST_HEART TRANSPARENT;
       text (WIDTH - 11) 0 (String.append "Score: " (Js.toString (score lastLife)))
            COLOR_GOLD COLOR_DEEP_SPACE]
      ++ (if gameOver lastLife
          then [text 22 8 "GAME OVER!" COLOR_GAMEOVER COLOR_DEEP_SPACE;
                text 17 10 "Press SPACE to restart" COLOR_WHITE COLOR_DEEP_SPACE]
          else [text 1 (HEIGHT - 1) "Avoid asteroids! [WASD] or Stick"
                     COLOR_DIM_STAR TRANSPARENT]) in
    uiOrders lastLife = Some ui /\
    renderUI lastLife = (Js.Normal, st') /\
    orders (uiLayer st') = ui /\
    committed (uiLayer st') = committed (uiLayer lastLife) ++ [ui] /\
    st' = set_uiLayer (uiLayer st') lastLife.
Proof.
  apply (hearts_total_three lastLife).
  unfold lastLife, game. cbn [lives]. lia.
Defined.

End SpaceDemoFacts.

(* ====================================================================== *)
(** ** Properties of UTSPClient *)
(* ====================================================================== *)

Module UTSPClientFacts.

Import UTSPClient.

Section Facts.

Variable Application : Type.
Variable RendererType : Type.
Variable Container : Type.
Variable constructorName : Application -> string.
Variable rendererText : RendererType -> string.

Abbreviation Props := (UTSPClient.Props Application RendererType).
Abbreviation Refs := (UTSPClient.Refs Container).
Abbreviation Event := (UTSPClient.Event Application RendererType Container).
Abbreviation effect := (UTSPClient.effect constructorName rendererText).
Abbreviation effects := (UTSPClient.effects constructorName rendererText).
Abbreviation depsKey := (UTSPClient.depsKey constructorName rendererText).

Lemma keyIs_true (stored : option string) (key : string) :
  keyIs stored key = true <-> stored = Some key.
Proof.
  destruct stored as [s|]; cbn.
  - rewrite String.eqb_eq. split; congruence.
  - split; discriminate.
Qed.

Lemma keyIs_false (stored : option string) (key : string) :
  keyIs stored key = false <-> stored <> Some key.
Proof.
  rewrite <- keyIs_true. destruct (keyIs stored key); split; congruence.
Qed.

Lemma constructions_app (log more : list Event) :
  constructions (log ++ more) = (constructions log + constructions more)%nat.
Proof. unfold constructions. rewrite List.filter_app, length_app. reflexivity. Qed.

Lemma constructions_stopHeld (refs : Refs) (log : list Event) :
  constructions (stopHeld refs log) = constructions log.
Proof.
  unfold stopHeld. destruct (runtimeRef refs); [|reflexivity].
  rewrite constructions_app. cbn. lia.
Qed.

(** The effect body where setup is skipped. *)
Lemma effect_same_key (props : Props) (refs : Refs) (log : list Event) :
  initializedWithKeyRef refs = Some (depsKey props) ->
  effect props refs log = (refs, log, false).
Proof.
  intros Hkey. unfold UTSPClient.effect.
  destruct (containerRef refs); [|reflexivity].
  apply keyIs_true in Hkey. rewrite Hkey. reflexivity.
Qed.

(** The effect body where setup runs. *)
Lemma effect_new_key (props : Props) (refs : Refs) (log : list Event) (element : Container) :
  containerRef refs = Some element ->
  initializedWithKeyRef refs <> Some (depsKey props) ->
  let runtime := constructions log in
  effect props refs log =
    (mkRefs (Some element) (Some runtime) (Some (depsKey props)),
     stopHeld refs log
       ++ [InnerHTMLSet element ""]
       ++ [Constructed runtime
             (mkOptions "standalone" (application props) element
                        (renderer props) (width props) (height props)
                        (autoplay props))]
       ++ [Started runtime],
     true).
Proof.
  intros Hc Hkey. unfold UTSPClient.effect. rewrite Hc.
  apply keyIs_false in Hkey. rewrite Hkey. cbv zeta.
  rewrite constructions_app, constructions_stopHeld. cbn [constructions List.filter isConstructed length].
  rewrite Nat.add_0_r. rewrite <- !app_assoc. reflexivity.
Qed.

Lemma effects_same_key (key : string) (runs : list Props) : forall (refs : Refs) (log : list Event),
  Forall (fun props => depsKey props = key) runs ->
  initializedWithKeyRef refs = Some key ->
  effects runs refs log = (refs, log).
Proof.
  induction runs as [|props rest IH]; intros refs log Hall Hkey; [reflexivity|].
  apply Forall_cons in Hall as [Hp Hrest]. cbn [UTSPClient.effects].
  rewrite effect_same_key by congruence. apply IH; assumption.
Qed.

(** The key guard of the effect body.  A run while the stored
    initialization key equals the current deps key returns at once: refs
    and log unchanged, no runtime constructed or started, no cleanup
    returned.  So do any further runs with that key; and from any refs, runs
    of the effect body with one deps key and no cleanup in between
    construct at most one runtime.  The cleanup resets the stored key: on a
    mounted component, the effect body run after it constructs one more
    runtime, for the same key. *)
Lemma same_key_skips_setup (props : Props) (refs : Refs) (log : list Event) :
  initializedWithKeyRef refs = Some (depsKey props) ->
  effect props refs log = (refs, log, false) /\
  (forall runs : list Props,
     Forall (fun other => depsKey other = depsKey props) runs ->
     effects runs refs log = (refs, log)) /\
  (forall (runs : list Props) (refs0 : Refs) (log0 : list Event),
     Forall (fun other => depsKey other = depsKey props) runs ->
     (constructions (snd (effects (props :: runs) refs0 log0))
      <= S (constructions log0))%nat) /\
  (forall element : Container,
     containerRef refs = Some element ->
     initializedWithKeyRef (fst (cleanup refs log)) = None /\
     constructions
       (snd (fst (effect props (fst (cleanup refs log)) (snd (cleanup refs log)))))
     = S (constructions log)).
Proof.
  intros Hkey. split; [apply effect_same_key; exact Hkey|].
  split; [intros runs Hall; apply (effects_same_key (depsKey props)); assumption|].
  split.
  - intros runs refs0 log0 Hall. cbn [UTSPClient.effects].
    destruct (containerRef refs0) as [element|] eqn:Hc.
    + destruct (keyIs (initializedWithKeyRef refs0) (depsKey props)) eqn:Hk.
      * apply keyIs_true in Hk. rewrite effect_same_key by exact Hk.
        rewrite (effects_same_key (depsKey props)) by assumption. cbn [snd]. lia.
      * apply keyIs_false in Hk.
        rewrite (effect_new_key props refs0 log0 element Hc Hk).
        rewrite (effects_same_key (depsKey props)) by (assumption || reflexivity).
        cbn [snd]. rewrite !constructions_app, constructions_stopHeld. cbn. lia.
    + assert (Hnone : forall (rs : list Props) (l : list Event),
                effects rs refs0 l = (refs0, l)).
      { induction rs as [|p rs IH]; intros l; [reflexivity|].
        cbn [UTSPClient.effects]. unfold UTSPClient.effect at 1.
        rewrite Hc. apply IH. }
      unfold UTSPClient.effect. rewrite Hc. rewrite Hnone. cbn [snd]. lia.
  - intros element Hc. unfold cleanup. cbn [fst snd initializedWithKeyRef].
    split; [reflexivity|].
    rewrite (effect_new_key props _ _ element) by (exact Hc || discriminate).
    cbn [fst snd].
    rewrite !constructions_app, !constructions_stopHeld. cbn. lia.
Qed.

(** Claim C6: re-initialization on dependency change.  The component
    renders its [div] with [ref={containerRef}] in every render, and React
    attaches refs before it runs effects, so the effect body finds the
    container mounted.  A run of the effect body with a deps key different
    from the stored one then stops the runtime held (if any) and lets go of
    it, clears the container, records the new key, and constructs and
    starts exactly one runtime, in this order, with the current
    application, renderer, width, height and autoplay; the refs hold the
    new runtime, and the cleanup is returned. *)
Theorem new_key_reinitializes (props : Props) (refs : Refs) (log : list Event)
    (element : Container) :
  containerRef refs = Some element ->
  initializedWithKeyRef refs <> Some (depsKey props) ->
  let runtime := constructions log in
  effect props refs log =
    (mkRefs (Some element) (Some runtime) (Some (depsKey props)),
     log
       ++ match runtimeRef refs with
          | Some held => [Stopped held]
          | None => []
          end
       ++ [InnerHTMLSet element "";
           Constructed runtime
             (mkOptions "standalone" (application props) element
                        (renderer props) (width props) (height props)
                        (autoplay props));
           Started runtime],
     true)
  /\ constructions (snd (fst (effect props refs log))) = S (constructions log).
Proof.
  intros Hc Hkey runtime.
  pose proof (effect_new_key props refs log element Hc Hkey) as E.
  cbv zeta in E. fold runtime in E.
  assert (Hstop : stopHeld refs log
                  = log ++ match runtimeRef refs with
                           | Some held => [Stopped held]
                           | None => []
                           end).
  { unfold stopHeld. destruct (runtimeRef refs); [reflexivity|].
    rewrite app_nil_r. reflexivity. }
  split.
  - rewrite E, Hstop, <- !app_assoc. reflexivity.
  - rewrite E. cbn [fst snd].
    rewrite !constructions_app, constructions_stopHeld. cbn. lia.
Qed.

End Facts.

Import Examples.

(** Claim C5 (a second runtime is never instantiated for the same
    dependency key) against the code.  Under React Strict Mode a mounted
    component runs the effect body, its cleanup and the effect body again
    with the same props.  The first run stores the key; the cleanup resets
    it to [null]; so the guard of the second run does not hold, and the
    second run constructs a second runtime for the same key, where the
    comment in the effect says that the second initialization is
    skipped. *)
Theorem remount_constructs_again :
  let '(refs1, log1, _) := effect className Js.toString demoProps mounted noEvents in
  let '(refs2, log2) := cleanup refs1 log1 in
  let '(refs3, log3, _) := effect className Js.toString demoProps refs2 log2 in
  initializedWithKeyRef refs1 = Some demoKey /\
  constructions log1 = 1%nat /\
  initializedWithKeyRef refs2 = None /\
  constructions log3 = 2%nat.
Proof. vm_compute. repeat split; reflexivity. Qed.

(** C6 on a component whose runtime runs for [demoProps], rendered again
    with a larger terminal: runtime 0 is stopped, runtime 1 constructed
    and started. *)
Lemma new_key_reinitializes_witness :
  let runtime := constructions firstRun in
  effect className Js.toString largerProps running firstRun =
    (mkRefs (Some tt) (Some runtime)
            (Some (depsKey className Js.toString largerProps)),
     firstRun
       ++ match runtimeRef running with
          | Some held => [Stopped held]
          | None => []
          end
       ++ [InnerHTMLSet tt "";
           Constructed runtime
             (mkOptions "standalone" (application largerProps) tt
                        (renderer largerProps) (width largerProps)
                        (height largerProps) (autoplay largerProps));
           Started runtime],
     true)
  /\ constructions
       (snd (fst (effect className Js.toString largerProps running firstRun)))
     = S (constructions firstRun).
Proof.
  apply (new_key_reinitializes string Z unit className Js.toString largerProps
           running firstRun tt); [reflexivity|].
  vm_compute. discriminate.
Defined.

End UTSPClientFacts.

(* ====================================================================== *)
(** ** Further properties of SpaceDemo *)
(* ====================================================================== *)

Module SpaceDemoMore.

Import SpaceDemo SpaceDemoFacts.

(** *** Indexing with a random draw *)

Lemma floor_draw (r : Q) (n : Z) :
  0 <= r < 1 -> (0 < n)%Z -> (0 <= Js.floor (r * Js.num n) < n)%Z.
Proof.
  intros [Hlo Hhi] Hn. unfold Js.floor, Js.num.
  assert (Hn' : 0 < inject_Z n) by (change 0 with (inject_Z 0); rewrite <- Zlt_Qlt; exact Hn).
  split.
  - change 0%Z with (Qfloor 0). apply Qfloor_resp_le. nra.
  - rewrite Zlt_Qlt. apply Qle_lt_trans with (r * inject_Z n); [apply Qfloor_le|]. nra.
Qed.

Lemma index_draw {A : Type} (l : list A) (r : Q) :
  0 <= r < 1 -> l <> [] ->
  exists x, Js.index l (Js.floor (r * Js.num (Z.of_nat (length l)))) = Some x /\ In x l.
Proof.
  intros Hr Hl.
  assert (Hlen : (0 < Z.of_nat (length l))%Z) by (destruct l; [congruence | cbn; lia]).
  pose proof (floor_draw r _ Hr Hlen) as [Hlo Hhi].
  unfold Js.index.
  assert ((Js.floor (r * Js.num (Z.of_nat (length l))) <? 0)%Z = false) as -> by lia.
  destruct (l !! Z.to_nat (Js.floor (r * Js.num (Z.of_nat (length l))))) as [x|] eqn:Hx.
  - exists x. split; [reflexivity|]. apply list_elem_of_In. eapply list_elem_of_lookup_2, Hx.
  - apply lookup_ge_None in Hx. lia.
Qed.

Ltac count_passes :=
  unfold passesLeft in *; change (Z.to_nat ASTEROIDS_MAX) with 10%nat in *.

Section More.
Variable rnd : nat -> Q.

(** *** Stars *)

Lemma scrollStars_length stars speed : forall k,
  length (fst (scrollStars rnd stars speed k)) = length stars.
Proof.
  induction stars as [|star rest IH]; intros k; [reflexivity|].
  cbn [scrollStars]. unfold bind, ret, random.
  destruct (Js.ltb (star_x star - speed) 0).
  - specialize (IH (S k)). destruct (scrollStars rnd rest speed (S k)). cbn in *. congruence.
  - specialize (IH k). destruct (scrollStars rnd rest speed k). cbn in *. congruence.
Qed.

Lemma generateStars_length count colors k :
  length (fst (generateStars rnd count colors k)) = count.
Proof.
  unfold generateStars.
  destruct (arrayFrom count _ k) as [l k'] eqn:E.
  exact (arrayFrom_length _ _ _ _ _ E).
Qed.


(** *** One pass of the loop, once more *)

(** The asteroid a pass leaves at its index is a spawned one, or the one
    it found, moved left and still on the screen. *)
Lemma asteroidStep_element gx gy slots i a st k st' k' :
  asteroidStep rnd gx gy slots i a st k = (st', k') ->
  exists b extra,
    passed rnd i st st' b extra /\
    (spawned rnd b \/
     (b = mkAsteroid (asteroid_x a - SPEED_ASTEROID) (asteroid_y a) (asteroid_char a)
      /\ offscreen a = false)).
Proof.
  unfold asteroidStep. cbv zeta.
  set (moved := mkAsteroid _ _ _).
  set (st0 := set_asteroids _ st).
  assert (Hrec : forall s, asteroids s = <[i:=moved]> (asteroids st) ->
                  recycleOffscreen rnd slots i moved s k = (st', k') ->
                  exists b extra,
                    passed rnd i st st' b extra /\
                    (spawned rnd b \/ (b = moved /\ offscreen a = false))).
  { intros s Hs E. apply recycleOffscreen_spec in E.
    change (Js.ltb (asteroid_x moved) (-2)) with (offscreen a) in E.
    destruct E as [[Hoff ->] | (Hoff & _ & b & extra & Hb & Hp & Hx)].
    - exists moved, []. split; [split|].
      + rewrite Hs, app_nil_r. reflexivity.
      + left; reflexivity.
      + right. split; [reflexivity | exact Hoff].
    - exists b, extra. split; [split|].
      + rewrite Hp, Hs, list_insert_insert_eq. reflexivity.
      + rewrite Hs, length_insert in Hx. exact Hx.
      + left. exact Hb. }
  destruct (collides gx gy moved); [|apply Hrec; reflexivity].
  destruct (invincibilityFrames st0 <=? 0)%Z; [|apply Hrec; reflexivity].
  destruct (lives _ <=? 0)%Z; [apply Hrec; reflexivity|].
  unfold bind, ret.
  match goal with |- context [createAsteroid rnd ?s k] =>
    destruct (createAsteroid rnd s k) as [b k1] eqn:Eb end.
  intros [= <- <-]. exists b, []. split; [split|].
  - cbn. rewrite list_insert_insert_eq, app_nil_r. reflexivity.
  - left; reflexivity.
  - left. eapply createAsteroid_spawned, Eb.
Qed.

(** *** The counters *)

Lemma recycleOffscreen_counters slots i m st k st' k' :
  recycleOffscreen rnd slots i m st k = (st', k') ->
  countersOk st -> countersOk st'.
Proof.
  intros E (Hl & Hs & Hi & Hg).
  pose proof (recycleOffscreen_frame rnd _ _ _ _ _ _ _ E) as [_ (El & Ei & Eg)].
  apply recycleOffscreen_spec in E as [[_ ->] | (_ & Es & _)];
    unfold countersOk; [tauto|].
  rewrite El, Ei, Eg, Es. repeat split; try tauto; lia.
Qed.

Lemma asteroidStep_counters gx gy slots i a st k st' k' :
  asteroidStep rnd gx gy slots i a st k = (st', k') ->
  countersOk st -> countersOk st'.
Proof.
  unfold asteroidStep. cbv zeta.
  set (moved := mkAsteroid _ _ _).
  intros E (Hl & Hs & Hi & Hg). revert E.
  cbn [invincibilityFrames lives set_asteroids set_lives].
  destruct (collides gx gy moved);
    [destruct (invincibilityFrames st <=? 0)%Z|].
  - destruct (lives st - 1 <=? 0)%Z eqn:Hlast.
    + intros E. apply recycleOffscreen_counters in E; [exact E|].
      apply Z.leb_le in Hlast.
      unfold countersOk. cbn. repeat split; try tauto; lia.
    + unfold bind, ret.
      match goal with |- context [createAsteroid rnd ?s k] =>
        destruct (createAsteroid rnd s k) as [b k1] end.
      intros [= <- <-]. apply Z.leb_gt in Hlast.
      unfold countersOk, TICK_RATE. cbn.
      repeat split; try lia.
      intros Hover. apply Hg in Hover. lia.
  - intros E. apply recycleOffscreen_counters in E; [exact E|].
    unfold countersOk. cbn. tauto.
  - intros E. apply recycleOffscreen_counters in E; [exact E|].
    unfold countersOk. cbn. tauto.
Qed.

Lemma asteroidLoop_counters gx gy slots fuel : forall i st k st' k',
  asteroidLoop rnd gx gy slots fuel i st k = (st', k') ->
  countersOk st -> countersOk st'.
Proof.
  induction fuel as [|fuel IH]; intros i st k st' k'; cbn [asteroidLoop].
  - intros [= <- <-]. tauto.
  - destruct (asteroids st !! i) as [a|]; [|intros [= <- <-]; tauto].
    unfold bind.
    destruct (asteroidStep rnd gx gy slots i a st k) as [st1 k1] eqn:E.
    intros El Hc. eapply IH; [exact El|]. eapply asteroidStep_counters; eauto.
Qed.


(** *** The phases of a call *)

Lemma prepareTick_stars user st k st1 k1 :
  prepareTick rnd user st k = (st1, k1) ->
  exists k0,
    starsFar st1 = fst (scrollStars rnd (starsFar st) SPEED_STARS_FAR k) /\
    starsNear st1 = fst (scrollStars rnd (starsNear st) SPEED_STARS_NEAR k0).
Proof.
  unfold prepareTick, bind, ret. cbv zeta.
  cbn [starsFar starsNear set_shipX set_shipY set_starsFar set_starsNear].
  assert (Hfar : forall s, starsFar (if (invincibilityFrames st >? 0)%Z then
              set_invincibilityFrames s st else st) = starsFar st)
    by (intros; destruct (_ >? _)%Z; reflexivity).
  assert (Hnear : forall s, starsNear (if (invincibilityFrames st >? 0)%Z then
              set_invincibilityFrames s st else st) = starsNear st)
    by (intros; destruct (_ >? _)%Z; reflexivity).
  rewrite Hfar, Hnear.
  destruct (scrollStars rnd (starsFar st) SPEED_STARS_FAR k) as [far k0].
  destruct (scrollStars rnd (starsNear st) SPEED_STARS_NEAR k0) as [near k2] eqn:En.
  intros [= <- <-]. exists k0. cbn. rewrite En. split; reflexivity.
Qed.

(** What [renderAll] sends: one commit on each star layer and on the game
    layer, and one on the UI layer unless [renderUI] throws. *)
Lemma renderAll_layers st c st' :
  renderAll st = (c, st') ->
  starLayerFar st' = renderStars (starLayerFar st) (starsFar st) /\
  starLayerNear st' = renderStars (starLayerNear st) (starsNear st) /\
  gameLayer st' =
    commit (setOrders (gameLayer st)
              [dotCloudMultiColor (map asteroidDot (asteroids st));
               sprite (Js.floor (shipX st)) (Js.floor (shipY st) - 1) 0
                      (shipColor st) TRANSPARENT]) /\
  uiLayer st' = match uiOrders st with
                | Some orders => commit (setOrders (uiLayer st) orders)
                | None => uiLayer st
                end.
Proof.
  unfold renderAll, renderUI, renderGame. cbv zeta.
  assert (Hui : forall s, lives s = lives st -> score s = score st ->
              gameOver s = gameOver st -> uiOrders s = uiOrders st).
  { intros s Hl Hs Hg. unfold uiOrders. rewrite Hl, Hs, Hg. reflexivity. }
  rewrite Hui by reflexivity. clear Hui.
  destruct (uiOrders st); intros [= <- <-]; cbn; repeat split; reflexivity.
Qed.

(** A call on a user with data leaves the state alone, or plays a tick:
    entry, preparation, loop, and rendering unless an empty slot made the
    loop throw. *)
Lemma updateUser_trace user st k st' :
  data user = Some st ->
  dataAfter (updateUser rnd user k) = Some st' ->
  st' = st \/
  exists st0 k0 slots st1 k1 st2 k2,
    tickEntry rnd user st k = Some (st0, k0) /\
    prepareTick rnd user st0 k0 = (st1, k1) /\
    asteroidLoop rnd (Js.floor (shipX st1)) (Js.floor (shipY st1)) slots
                 (loopFuel st1) 0 st1 k1 = (st2, k2) /\
    (st' = st2 \/ renderAll st2 = (completion (updateUser rnd user k), st')).
Proof.
  intros Hd Hafter.
  destruct (updateUser_cases rnd user st k Hd)
    as [(_ & _ & E) | (st0 & k0 & slots & c & s' & k' & Hin & Ep & E)];
    rewrite E in Hafter |- *; injection Hafter as <-; [left; reflexivity|].
  right.
  destruct (playTick_phases rnd user slots st0 k0)
    as (s1 & j1 & s2 & j2 & c0 & s3 & Hp & Hl & Hr & Ht).
  rewrite Ht in Ep. injection Ep as <- <- <-.
  exists st0, k0, slots, s1, j1, s2, j2.
  split; [|split; [exact Hp | split; [exact Hl|]]].
  - unfold tickEntry.
    destruct Hin as [(Hg & -> & -> & _) | (Hg & Hr0 & Hreset & _)].
    + rewrite Hg. reflexivity.
    + rewrite Hg, Hr0, Hreset. reflexivity.
  - destruct Hr as [[_ Hr] | (_ & _ & ->)]; [right; exact Hr | left; reflexivity].
Qed.

Lemma tickEntry_cases user st k st0 k0 :
  tickEntry rnd user st k = Some (st0, k0) ->
  (gameOver st = false /\ st0 = st) \/
  (gameOver st = true /\ resetGame rnd st k = (st0, k0)).
Proof.
  unfold tickEntry. destruct (gameOver st).
  - destruct (getButtonJustPressed user "Restart"); [|discriminate].
    intros [= E]. right. split; [reflexivity | exact E].
  - intros [= <- <-]. left. split; reflexivity.
Qed.

Lemma resetGame_spec st k st0 k0 :
  resetGame rnd st k = (st0, k0) ->
  lives st0 = 3%Z /\ score st0 = 0%Z /\ invincibilityFrames st0 = 0%Z /\
  gameOver st0 = false /\ shipX st0 = 10 /\ shipY st0 = Js.num HEIGHT / 2 /\
  starsFar st0 = starsFar st /\ starsNear st0 = starsNear st /\
  starLayerFar st0 = starLayerFar st /\ starLayerNear st0 = starLayerNear st /\
  gameLayer st0 = gameLayer st /\ uiLayer st0 = uiLayer st /\
  Forall (spawned rnd) (asteroids st0).
Proof.
  unfold resetGame, bind, ret.
  cbn [asteroids set_asteroids set_gameOver set_invincibilityFrames
       set_lives set_score set_shipY set_shipX].
  generalize (length (take (Z.to_nat ASTEROIDS_START) (asteroids st))).
  intros n.
  destruct (arrayFrom n (createAsteroid rnd 0) k) as [fresh kf] eqn:Ef.
  intros [= <- <-]. cbn. repeat split.
  clear -Ef. revert k fresh kf Ef.
  induction n as [|n IH]; intros k fresh kf; cbn.
  - intros [= <- <-]. constructor.
  - unfold bind, ret.
    destruct (createAsteroid rnd 0 k) as [a k1] eqn:Ea.
    destruct (arrayFrom n (createAsteroid rnd 0) k1) as [rest k2] eqn:Er.
    intros [= <- <-]. constructor; [eapply createAsteroid_spawned, Ea|].
    eapply IH, Er.
Qed.


(** *** What every game keeps, whatever the draws *)

Lemma initialData_spec k :
  let st := fst (initialData rnd k) in
  exists k1 k2,
    starsFar st = fst (generateStars rnd 40 [COLOR_DIM_STAR; COLOR_MEDIUM_STAR] k) /\
    starsNear st = fst (generateStars rnd 25 [COLOR_MEDIUM_STAR; COLOR_BRIGHT_STAR] k1) /\
    asteroids st = fst (arrayFrom (Z.to_nat ASTEROIDS_START) (createAsteroid rnd 0) k2) /\
    lives st = 3%Z /\ score st = 0%Z /\ invincibilityFrames st = 0%Z /\
    gameOver st = false /\
    committed (starLayerFar st) = [] /\ committed (starLayerNear st) = [] /\
    committed (gameLayer st) = [] /\ committed (uiLayer st) = [].
Proof.
  unfold initialData, bind, ret.
  destruct (generateStars rnd 40 _ k) as [far k1] eqn:Ef.
  destruct (generateStars rnd 25 _ k1) as [near k2] eqn:En.
  destruct (arrayFrom _ _ k2) as [rocks k3] eqn:Ea.
  exists k1, k2. rewrite En, Ea. cbn. repeat split; reflexivity.
Qed.

(** One call keeps the counters in range. *)
Lemma updateUser_counters user st k st' :
  data user = Some st ->
  dataAfter (updateUser rnd user k) = Some st' ->
  countersOk st -> countersOk st'.
Proof.
  intros Hd Hafter Hc.
  destruct (updateUser_trace user st k st' Hd Hafter)
    as [-> | (st0 & k0 & slots & st1 & k1 & st2 & k2 & He & Hp & Hl & Hr)];
    [exact Hc|].
  assert (Hc0 : countersOk st0).
  { apply tickEntry_cases in He as [[_ ->] | [_ Hreset]]; [exact Hc|].
    apply resetGame_spec in Hreset as (E1 & E2 & E3 & E4 & _).
    unfold countersOk. rewrite E1, E2, E3, E4. unfold TICK_RATE.
    repeat split; try lia; discriminate. }
  apply prepareTick_spec in Hp as (_ & Es1 & El1 & Eg1 & Ei1 & _).
  assert (Hc1 : countersOk st1).
  { destruct Hc0 as (? & ? & ? & ?). unfold countersOk.
    rewrite Es1, El1, Eg1, Ei1.
    destruct (invincibilityFrames st0 >? 0)%Z eqn:Hpos;
      repeat split; try tauto; lia. }
  pose proof (asteroidLoop_counters _ _ _ _ _ _ _ _ _ Hl Hc1) as Hc2.
  destruct Hr as [-> | Hr]; [exact Hc2|].
  apply renderAll_spec in Hr as [(_ & _ & _ & _ & _ & Es3 & El3 & Ei3 & Eg3) _].
  unfold countersOk in *. rewrite Es3, El3, Ei3, Eg3. exact Hc2.
Qed.

(** One call keeps the number of stars of either layer. *)
Lemma updateUser_star_counts user st k st' :
  data user = Some st ->
  dataAfter (updateUser rnd user k) = Some st' ->
  length (starsFar st') = length (starsFar st) /\
  length (starsNear st') = length (starsNear st).
Proof.
  intros Hd Hafter.
  destruct (updateUser_trace user st k st' Hd Hafter)
    as [-> | (st0 & k0 & slots & st1 & k1 & st2 & k2 & He & Hp & Hl & Hr)];
    [split; reflexivity|].
  assert (H0 : starsFar st0 = starsFar st /\ starsNear st0 = starsNear st).
  { apply tickEntry_cases in He as [[_ ->] | [_ Hreset]]; [split; reflexivity|].
    apply resetGame_spec in Hreset as (_ & _ & _ & _ & _ & _ & E5 & E6 & _).
    split; assumption. }
  destruct H0 as [Hf0 Hn0].
  destruct (prepareTick_stars user st0 k0 st1 k1 Hp) as (j & Ef1 & En1).
  apply asteroidLoop_scene in Hl as (_ & _ & _ & _ & Ef2 & En2 & _).
  assert (H2 : length (starsFar st2) = length (starsFar st) /\
               length (starsNear st2) = length (starsNear st)).
  { rewrite Ef2, En2, Ef1, En1, !scrollStars_length, Hf0, Hn0. split; reflexivity. }
  destruct Hr as [-> | Hr]; [exact H2|].
  apply renderAll_spec in Hr as [(Ef3 & En3 & _) _].
  rewrite Ef3, En3. exact H2.
Qed.

Lemma reachable_steady st :
  reachable rnd st ->
  countersOk st /\ length (starsFar st) = 40%nat /\ length (starsNear st) = 25%nat.
Proof.
  induction 1 as [k | user k st st' Hreach IH Hd Haxes Hafter].
  - destruct (initialData_spec k)
      as (k1 & k2 & -> & -> & _ & Hl & Hs & Hi & Hg & _).
    rewrite !generateStars_length. unfold countersOk.
    rewrite Hl, Hs, Hi, Hg. unfold TICK_RATE.
    repeat split; try lia; discriminate.
  - destruct IH as (Hc & Hf & Hn).
    destruct (updateUser_star_counts user st k st' Hd Hafter) as [-> ->].
    split; [|split; assumption].
    exact (updateUser_counters user st k st' Hd Hafter Hc).
Qed.

(** The array holds between [ASTEROIDS_START] and [ASTEROIDS_MAX]
    asteroids. *)
Lemma reachable_asteroid_bounds st :
  reachable rnd st ->
  (Z.to_nat ASTEROIDS_START <= length (asteroids st) <= Z.to_nat ASTEROIDS_MAX)%nat.
Proof.
  intros Hreach. split; [exact (reachable_asteroid_count rnd st Hreach)|].
  induction Hreach as [k | user k st st' Hreach IH Hd Haxes Hafter].
  - destruct (initialData_spec k) as (k1 & k2 & _ & _ & -> & _).
    destruct (arrayFrom _ _ k2) as [rocks k3] eqn:Ea. cbn [fst].
    rewrite (arrayFrom_length _ _ _ _ _ Ea). unfold ASTEROIDS_START, ASTEROIDS_MAX. lia.
  - destruct (updateUser_trace user st k st' Hd Hafter)
      as [-> | (st0 & k0 & slots & st1 & k1 & st2 & k2 & He & Hp & Hl & Hr)];
      [exact IH|].
    assert (H0 : (length (asteroids st0) <= Z.to_nat ASTEROIDS_MAX)%nat).
    { apply tickEntry_cases in He as [[_ ->] | [_ Hreset]]; [exact IH|].
      rewrite (resetGame_length rnd _ _ _ _ Hreset).
      unfold ASTEROIDS_START, ASTEROIDS_MAX. lia. }
    apply prepareTick_spec in Hp as (Ea1 & _).
    apply asteroidLoop_length in Hl. rewrite Ea1 in Hl.
    change (Z.to_nat ASTEROIDS_MAX) with 10%nat in *.
    destruct Hr as [-> | Hr]; [lia|].
    apply renderAll_spec in Hr as [(_ & _ & -> & _) _]. lia.
Qed.

(** A call in a game completes normally unless it leaves fewer than zero
    lives. *)
Lemma reachable_completion user st k st' :
  reachable rnd st -> data user = Some st ->
  dataAfter (updateUser rnd user k) = Some st' ->
  (0 <= lives st')%Z ->
  completion (updateUser rnd user k) = Js.Normal.
Proof.
  intros Hreach Hd Hafter Hlives.
  pose proof (reachable_no_TypeError rnd user st k Hreach Hd) as Hno.
  apply reachable_steady in Hreach as [Hc _].
  pose proof (updateUser_counters user st k st' Hd Hafter Hc) as (Hmax & _).
  destruct (updateUser_cases rnd user st k Hd)
    as [(_ & _ & E) | (st0 & k0 & slots & c & s' & k' & Hin & Ep & E)];
    rewrite E in Hafter, Hno |- *; [reflexivity|].
  injection Hafter as ->. cbn [completion] in *.
  destruct (playTick_phases rnd user slots st0 k0)
    as (s1 & j1 & s2 & j2 & c0 & s3 & _ & _ & Hr & Ht).
  rewrite Ht in Ep. injection Ep as <- <- <-.
  destruct Hr as [[_ Hr] | (_ & -> & _)]; [|congruence].
  apply renderAll_spec in Hr as [(_ & _ & _ & _ & _ & _ & El3 & _) ->].
  destruct (uiOrders_some s2) as [os ->]; [lia | reflexivity].
Qed.


(** *** What the layers are sent *)

Lemma loaded_palette (id : Z) : (0 <= id <= 10)%Z -> loaded id.
Proof.
  intros H. right. cbn.
  assert (id = 0 \/ id = 1 \/ id = 2 \/ id = 3 \/ id = 4 \/ id = 5 \/ id = 6
          \/ id = 7 \/ id = 8 \/ id = 9 \/ id = 10)%Z by lia.
  intuition auto.
Qed.

Lemma drawable_text x y str fg bg :
  loaded fg -> loaded bg -> drawable (text x y str fg bg).
Proof.
  intros Hfg Hbg. split; [|split].
  - intros c [<- | [<- | []]]; eexists; split; try reflexivity; assumption.
  - intros id [].
  - intros dots [=].
Qed.

Lemma drawable_sprite x y fg bg :
  loaded fg -> loaded bg -> drawable (sprite x y 0 fg bg).
Proof.
  intros Hfg Hbg. split; [|split].
  - intros c [<- | [<- | []]]; eexists; split; try reflexivity; assumption.
  - intros id [<- | []]. cbn. left. reflexivity.
  - intros dots [=].
Qed.

Lemma drawable_dots (dots : list Dot) :
  Forall (fun d => (exists id, fgColorCode d = Some id /\ loaded id)
                   /\ loaded (bgColorCode d) /\ charCode d <> None) dots ->
  drawable (dotCloudMultiColor dots).
Proof.
  intros Hall. split; [|split].
  - intros c Hc. cbn in Hc. apply in_flat_map in Hc as (d & Hd & Hc).
    apply list_elem_of_In in Hd.
    rewrite Forall_forall in Hall. destruct (Hall d Hd) as ((id & Hfg & Hid) & Hbg & _).
    destruct Hc as [<- | [<- | []]].
    + exists id. split; assumption.
    + eexists. split; [reflexivity | exact Hbg].
  - intros id [].
  - intros dots' [= <-]. eapply Forall_impl; [exact Hall|]. cbn. tauto.
Qed.

Lemma renderStars_painted colors layer stars :
  (forall c, In c colors -> loaded c) ->
  Forall (starOk colors) stars ->
  painted layer -> painted (renderStars layer stars).
Proof.
  intros Hcolors Hstars Hl. unfold painted, renderStars. cbn [committed commit setOrders orders].
  apply Forall_app. split; [exact Hl|].
  constructor; [|constructor]. constructor; [|constructor].
  apply drawable_dots. apply Forall_map. eapply Forall_impl; [exact Hstars|].
  intros star (_ & _ & c & Hc & Hin). cbn.
  split; [exists c; split; [exact Hc | apply Hcolors, Hin]|].
  split; [left; reflexivity | discriminate].
Qed.

Lemma shipColor_loaded st : loaded (shipColor st).
Proof.
  unfold shipColor.
  destruct (gameOver st); [apply loaded_palette; unfold COLOR_GAMEOVER; lia|].
  destruct (invincibilityFrames st >? 0)%Z;
    [destruct (_ =? 0)%Z|]; apply loaded_palette;
    unfold COLOR_GAMEOVER, COLOR_SHIP; lia.
Qed.

Lemma uiOrders_drawable st os :
  uiOrders st = Some os -> Forall drawable os.
Proof.
  unfold uiOrders.
  destruct (Js.repeat HEART (lives st)) as [red|]; [|discriminate].
  destruct (Js.repeat HEART (3 - lives st)) as [gray|]; [|discriminate].
  intros [= <-].
  assert (Hp : forall id, (0 <= id <= 10)%Z -> loaded id) by apply loaded_palette.
  assert (Ht : loaded TRANSPARENT) by (left; reflexivity).
  destruct (gameOver st);
    repeat (apply Forall_cons_2 || apply Forall_nil_2);
    apply drawable_text; try exact Ht; apply Hp;
    unfold COLOR_WHITE, COLOR_DEEP_SPACE, COLOR_GAMEOVER, COLOR_LOST_HEART,
           COLOR_GOLD, COLOR_DIM_STAR; lia.
Qed.

Lemma far_colors_loaded c :
  In c [COLOR_DIM_STAR; COLOR_MEDIUM_STAR] -> loaded c.
Proof.
  intros [<- | [<- | []]]; apply loaded_palette;
    unfold COLOR_DIM_STAR, COLOR_MEDIUM_STAR; lia.
Qed.

Lemma near_colors_loaded c :
  In c [COLOR_MEDIUM_STAR; COLOR_BRIGHT_STAR] -> loaded c.
Proof.
  intros [<- | [<- | []]]; apply loaded_palette;
    unfold COLOR_BRIGHT_STAR, COLOR_MEDIUM_STAR; lia.
Qed.

Lemma renderAll_painted st c st' :
  renderAll st = (c, st') ->
  fieldOk st -> fieldOk st'.
Proof.
  intros Hr (Hfar & Hnear & Hrocks & Pf & Pn & Pg & Pu).
  pose proof (renderAll_layers st c st' Hr) as (Lf & Ln & Lg & Lu).
  apply renderAll_spec in Hr as [(Ef & En & Ea & _) _].
  unfold fieldOk. rewrite Ef, En, Ea, Lf, Ln, Lg, Lu.
  split; [exact Hfar|]. split; [exact Hnear|]. split; [exact Hrocks|].
  split; [|split; [|split]].
  - apply (renderStars_painted _ _ _ far_colors_loaded Hfar Pf).
  - apply (renderStars_painted _ _ _ near_colors_loaded Hnear Pn).
  - unfold painted. cbn [committed commit setOrders orders].
    apply Forall_app. split; [exact Pg|].
    constructor; [|constructor]. constructor; [|constructor; [|constructor]].
    + apply drawable_dots. apply Forall_map.
      eapply Forall_impl; [exact Hrocks|].
      intros a (_ & _ & Hc). cbn.
      split; [exists COLOR_ASTEROID; split; [reflexivity|];
              apply loaded_palette; unfold COLOR_ASTEROID; lia|].
      split; [left; reflexivity|].
      cbn in Hc. intuition congruence.
    + apply drawable_sprite; [apply shipColor_loaded | left; reflexivity].
  - destruct (uiOrders st) as [os|] eqn:Hui; [|exact Pu].
    unfold painted. cbn [committed commit setOrders orders].
    apply Forall_app. split; [exact Pu|].
    constructor; [|constructor]. eapply uiOrders_drawable, Hui.
Qed.

(** *** Hits *)

(** With two lives or more, a pass leaves the health alone or takes one
    life and starts the recovery period. *)
Lemma asteroidStep_hit gx gy slots i a st k st' k' :
  (2 <= lives st)%Z ->
  asteroidStep rnd gx gy slots i a st k = (st', k') ->
  sameHealth st st' \/
  (lives st' = (lives st - 1)%Z /\ invincibilityFrames st' = TICK_RATE
   /\ gameOver st' = gameOver st /\ (invincibilityFrames st <= 0)%Z).
Proof.
  intros Hlives. unfold asteroidStep. cbv zeta.
  set (moved := mkAsteroid _ _ _).
  cbn [invincibilityFrames lives set_asteroids set_lives].
  assert ((lives st - 1 <=? 0)%Z = false) as -> by lia.
  destruct (collides gx gy moved);
    [destruct (invincibilityFrames st <=? 0)%Z eqn:Hinv|].
  - unfold bind, ret.
    match goal with |- context [createAsteroid rnd ?s k] =>
      destruct (createAsteroid rnd s k) as [b k1] end.
    intros [= <- <-]. right. cbn. apply Z.leb_le in Hinv. tauto.
  - intros E. apply recycleOffscreen_frame in E as [_ E]. left. exact E.
  - intros E. apply recycleOffscreen_frame in E as [_ E]. left. exact E.
Qed.

Lemma asteroidLoop_hit gx gy slots fuel : forall i st k st' k',
  (2 <= lives st)%Z ->
  asteroidLoop rnd gx gy slots fuel i st k = (st', k') ->
  sameHealth st st' \/
  (lives st' = (lives st - 1)%Z /\ invincibilityFrames st' = TICK_RATE
   /\ gameOver st' = gameOver st /\ (invincibilityFrames st <= 0)%Z).
Proof.
  induction fuel as [|fuel IH]; intros i st k st' k' Hlives; cbn [asteroidLoop].
  - intros [= <- <-]. left. unfold sameHealth. tauto.
  - destruct (asteroids st !! i) as [a|];
      [|intros [= <- <-]; left; unfold sameHealth; tauto].
    unfold bind.
    destruct (asteroidStep rnd gx gy slots i a st k) as [st1 k1] eqn:E.
    apply asteroidStep_hit in E as [(El & Ei & Eg) | (El & Ei & Eg & Ez)];
      [| |exact Hlives].
    + intros Hloop. apply IH in Hloop; [|lia].
      unfold sameHealth in *. rewrite El, Ei, Eg in Hloop. exact Hloop.
    + intros Hloop.
      apply asteroidLoop_recovering in Hloop as (Fl & Fi & Fg);
        [|rewrite Ei; unfold TICK_RATE; lia].
      right. rewrite Fl, Fi, Fg. tauto.
Qed.

(** *** Properties that hold whatever the draws *)

(** Property X1: in every state of a game, never more than three lives, a
    score that is not negative, and a recovery timer between 0 and
    [TICK_RATE]. *)
Theorem counters_in_range st :
  reachable rnd st ->
  (lives st <= 3)%Z /\ (0 <= score st)%Z /\
  (0 <= invincibilityFrames st <= TICK_RATE)%Z.
Proof.
  intros Hreach. apply reachable_steady in Hreach as [(Hl & Hs & Hi & _) _].
  split; [exact Hl|]. split; [exact Hs | exact Hi].
Qed.

(** Property X2: in every state of a game, [gameOver] is set exactly when
    [lives <= 0]. *)
Theorem game_over_iff_no_life st :
  reachable rnd st -> (gameOver st = true <-> (lives st <= 0)%Z).
Proof.
  intros Hreach. apply reachable_steady in Hreach as [(_ & _ & _ & Hg) _].
  exact Hg.
Qed.

(** Property X3: in every state of a game the asteroid array holds at
    least [ASTEROIDS_START] and at most [ASTEROIDS_MAX] asteroids. *)
Theorem asteroid_count_in_range st :
  reachable rnd st ->
  (Z.to_nat ASTEROIDS_START <= length (asteroids st) <= Z.to_nat ASTEROIDS_MAX)%nat.
Proof. apply reachable_asteroid_bounds. Qed.

(** Property X4: the two star fields keep the sizes [initUser] gave them,
    40 and 25 stars. *)
Theorem star_counts_fixed st :
  reachable rnd st ->
  length (starsFar st) = 40%nat /\ length (starsNear st) = 25%nat.
Proof. intros Hreach. apply reachable_steady in Hreach as [_ H]. exact H. Qed.

(** Property X5: a call of [updateUser] in a game throws in one case only.
    It completes normally whenever it leaves [lives >= 0]; when it does
    not complete normally it throws [RangeError] (never [TypeError]) and
    has left [lives < 0]. *)
Theorem only_negative_lives_throw user st k :
  reachable rnd st -> data user = Some st ->
  exists st',
    dataAfter (updateUser rnd user k) = Some st' /\
    ((0 <= lives st')%Z -> completion (updateUser rnd user k) = Js.Normal) /\
    (completion (updateUser rnd user k) <> Js.Normal ->
     completion (updateUser rnd user k) = Js.Throw Js.RangeError
     /\ (lives st' < 0)%Z).
Proof.
  intros Hreach Hd.
  assert (Hsome : exists st', dataAfter (updateUser rnd user k) = Some st').
  { destruct (updateUser_cases rnd user st k Hd)
      as [(_ & _ & ->) | (st0 & k0 & slots & c & s' & k' & _ & _ & ->)];
      eexists; reflexivity. }
  destruct Hsome as [st' Hafter]. exists st'. split; [exact Hafter|].
  pose proof (reachable_completion user st k st' Hreach Hd Hafter) as Hok.
  split; [exact Hok|]. intros Hbad.
  pose proof (reachable_no_TypeError rnd user st k Hreach Hd) as Hno.
  split.
  - destruct (completion (updateUser rnd user k)) as [|[|]]; congruence.
  - destruct (Z_lt_ge_dec (lives st') 0) as [Hneg | Hpos]; [exact Hneg|].
    exfalso. apply Hbad, Hok. lia.
Qed.

(** Property X6: the loop over the asteroids ends although its body pushes
    onto the array it iterates.  From index [i] it makes at most
    [passesLeft i] passes: any larger budget gives the same state and the
    same draws, and the budget [updateUser] gives it is large enough. *)
Theorem collision_loop_terminates gx gy slots fuel i st k :
  (passesLeft i st <= fuel)%nat ->
  asteroidLoop rnd gx gy slots fuel i st k
  = asteroidLoop rnd gx gy slots (passesLeft i st) i st k
  /\ (passesLeft 0 st <= loopFuel st)%nat.
Proof.
  intros Hfuel. split; [apply asteroidLoop_fuel; [exact Hfuel | lia]|].
  unfold passesLeft, loopFuel. lia.
Qed.

(** Property X7: with two lives or more, one tick of a running game costs
    at most one life, whatever the number of asteroids that hit.  Either
    the lives stay and the recovery timer has only counted down, or one
    life is lost, the timer is set to [TICK_RATE], and the timer was at most
    1 before the call.  The game is not over after the call. *)
Theorem tick_costs_at_most_one_life user st k :
  data user = Some st -> gameOver st = false -> (2 <= lives st)%Z ->
  exists st',
    dataAfter (updateUser rnd user k) = Some st' /\
    gameOver st' = false /\
    ((lives st' = lives st /\
      invincibilityFrames st' =
        (if (invincibilityFrames st >? 0)%Z
         then invincibilityFrames st - 1 else invincibilityFrames st)%Z)
     \/
     (lives st' = (lives st - 1)%Z /\ invincibilityFrames st' = TICK_RATE
      /\ (invincibilityFrames st <= 1)%Z)).
Proof.
  intros Hd Hg Hlives. rewrite (updateUser_running rnd user st k Hd Hg).
  destruct (playTick_phases rnd user 0 st k)
    as (st1 & k1 & st2 & k2 & c & st3 & Hp & Hl & Hr & ->).
  destruct Hr as [[_ Hr] | [Hne _]]; [|congruence].
  exists st3. split; [reflexivity|].
  apply prepareTick_spec in Hp as (_ & _ & El1 & Eg1 & Ei1 & _).
  apply renderAll_spec in Hr as [(_ & _ & _ & _ & _ & _ & El3 & Ei3 & Eg3) _].
  apply asteroidLoop_hit in Hl as [(El2 & Ei2 & Eg2) | (El2 & Ei2 & Eg2 & Ez)];
    [| |lia].
  - split; [congruence|]. left. split; congruence.
  - split; [congruence|]. right.
    split; [congruence|]. split; [congruence|].
    rewrite Ei1 in Ez. destruct (invincibilityFrames st >? 0)%Z eqn:Hpos; lia.
Qed.

(** Property X8: a tick of a running game that completes normally commits
    each of the four layers exactly once, after everything else: what it
    commits shows the stars, the asteroids, the ship and the counters as
    the call leaves them. *)
Theorem running_tick_commits_each_layer_once user st k :
  data user = Some st -> gameOver st = false ->
  completion (updateUser rnd user k) = Js.Normal ->
  exists st' ui,
    dataAfter (updateUser rnd user k) = Some st' /\
    committed (starLayerFar st')
      = committed (starLayerFar st) ++ [[dotCloudMultiColor (map starDot (starsFar st'))]] /\
    committed (starLayerNear st')
      = committed (starLayerNear st) ++ [[dotCloudMultiColor (map starDot (starsNear st'))]] /\
    committed (gameLayer st')
      = committed (gameLayer st)
        ++ [[dotCloudMultiColor (map asteroidDot (asteroids st'));
             sprite (Js.floor (shipX st')) (Js.floor (shipY st') - 1) 0
                    (shipColor st') TRANSPARENT]] /\
    committed (uiLayer st') = committed (uiLayer st) ++ [ui] /\
    uiOrders st' = Some ui.
Proof.
  intros Hd Hg. rewrite (updateUser_running rnd user st k Hd Hg).
  destruct (playTick_phases rnd user 0 st k)
    as (st1 & k1 & st2 & k2 & c & st3 & Hp & Hl & Hr & ->).
  destruct Hr as [[_ Hr] | [Hne _]]; [|congruence].
  cbn [finish completion dataAfter]. intros ->.
  pose proof (renderAll_layers st2 _ st3 Hr) as (Lf & Ln & Lg & Lu).
  pose proof (renderAll_spec st2 _ st3 Hr)
    as [(Ef & En & Ea & Ex & Ey & Es & El3 & Ei3 & Eg3) Hc].
  apply asteroidLoop_scene in Hl as (M1 & M2 & M3 & M4 & _).
  apply prepareTick_spec in Hp as (_ & _ & _ & _ & _ & _ & _ & L1 & L2 & L3 & L4).
  destruct (uiOrders st2) as [ui|] eqn:Hui; [|discriminate].
  assert (Hui3 : uiOrders st3 = Some ui).
  { rewrite <- Hui. unfold uiOrders. rewrite El3, Es, Eg3. reflexivity. }
  assert (Hcolor : shipColor st3 = shipColor st2).
  { unfold shipColor. rewrite Eg3, Ei3. reflexivity. }
  exists st3, ui.
  split; [reflexivity|].
  rewrite Lf, Ln, Lg, Lu, Ef, En, Ea, Ex, Ey, Hcolor, M1, M2, M3, M4, L1, L2, L3, L4.
  repeat split; try reflexivity. exact Hui3.
Qed.

(** [Math.floor(n / 5)] on an integer is the integer quotient. *)
Lemma floor_fifth (n : Z) : Js.floor (Js.num n / 5) = Z.div n 5.
Proof. unfold Js.floor, Js.num. symmetry. apply (Zdiv_Qdiv n 5). Qed.

(** Property X9: while the ship recovers in a running game, its colour is
    one of [COLOR_SHIP] and [COLOR_GAMEOVER], changes with every five
    frames of the timer, and repeats with every ten. *)
Theorem ship_flashes_while_recovering st frames :
  gameOver st = false -> (0 < frames)%Z ->
  let color n := shipColor (set_invincibilityFrames n st) in
  (color frames = COLOR_SHIP \/ color frames = COLOR_GAMEOVER) /\
  color (frames + 5)%Z <> color frames /\
  color (frames + 10)%Z = color frames.
Proof.
  intros Hg Hpos. cbv zeta. unfold shipColor.
  cbn [gameOver invincibilityFrames set_invincibilityFrames]. rewrite Hg.
  assert ((frames >? 0)%Z = true) as -> by lia.
  assert ((frames + 5 >? 0)%Z = true) as -> by lia.
  assert ((frames + 10 >? 0)%Z = true) as -> by lia.
  rewrite !floor_fifth.
  replace (frames + 5)%Z with (frames + 1 * 5)%Z by lia.
  replace (frames + 10)%Z with (frames + 2 * 5)%Z by lia.
  rewrite !Z.div_add by lia.
  assert (Hq : (0 <= Z.div frames 5)%Z) by (apply Z.div_pos; lia).
  rewrite !Z.rem_mod_nonneg by lia.
  pose proof (Z.mod_pos_bound (Z.div frames 5) 2 ltac:(lia)) as Hm.
  set (q := Z.div frames 5) in *.
  assert (H1 : Z.modulo (q + 1) 2 = (1 - Z.modulo q 2)%Z).
  { rewrite Z.add_mod by lia.
    destruct (Z.eq_dec (Z.modulo q 2) 0%Z) as [-> | Hne]; [reflexivity|].
    replace (Z.modulo q 2) with 1%Z by lia. reflexivity. }
  assert (H2 : Z.modulo (q + 2) 2 = Z.modulo q 2).
  { replace (q + 2)%Z with (q + 1 * 2)%Z by lia. apply Z.mod_add. lia. }
  rewrite H1, H2. unfold COLOR_GAMEOVER, COLOR_SHIP.
  split; [|split].
  - destruct (Z.eqb_spec (Z.modulo q 2) 0%Z); [right | left]; reflexivity.
  - destruct (Z.eqb_spec (1 - Z.modulo q 2)%Z 0%Z);
      destruct (Z.eqb_spec (Z.modulo q 2) 0%Z); try discriminate; lia.
  - reflexivity.
Qed.

(** *** What every game keeps when the draws are within [0, 1) *)

Section MathRandom.

Hypothesis random_ok : forall n, 0 <= rnd n < 1.

Lemma createAsteroid_char score k :
  asteroid_char (fst (createAsteroid rnd score k))
  = Js.index ["o"; "O"; "0"]%string (Js.floor (rnd k * Js.num 3)).
Proof.
  unfold createAsteroid, bind, ret, random. cbv zeta.
  destruct (Js.ltb _ 1); [destruct (Js.gtb _ _)|]; reflexivity.
Qed.

Lemma spawned_field a :
  spawned rnd a -> Js.num WIDTH <= asteroid_x a /\ asteroidOk a.
Proof.
  intros (s & k & ->). unfold asteroidOk.
  rewrite createAsteroid_char.
  destruct (index_draw ["o"; "O"; "0"]%string (rnd k) (random_ok k)) as (c & Hc & Hin);
    [discriminate|].
  change (Z.of_nat (length ["o"; "O"; "0"]%string)) with 3%Z in Hc. rewrite Hc.
  destruct (createAsteroid_draws rnd s k) as (y & ch & j & -> & Hy).
  specialize (Hy random_ok). cbn [fst asteroid_x asteroid_y].
  destruct (random_ok j) as [Hlo Hhi].
  change (Js.num WIDTH) with 60. change (Js.num (HEIGHT - 3)) with 17.
  split; [lra|]. split; [split; lra|]. split; [exact Hy|].
  cbn in Hin |- *. intuition (subst; auto).
Qed.

Lemma scrollStars_field colors speed : forall stars k,
  0 <= speed ->
  Forall (starOk colors) stars ->
  Forall (starOk colors) (fst (scrollStars rnd stars speed k)).
Proof.
  induction stars as [|star rest IH]; intros k Hspeed Hall; [constructor|].
  apply Forall_cons in Hall as [(Hx & Hy & Hc) Hrest].
  cbn [scrollStars]. unfold bind, ret, random.
  destruct (Js.ltb (star_x star - speed) 0) eqn:Hwrap.
  - specialize (IH (S k) Hspeed Hrest).
    destruct (scrollStars rnd rest speed (S k)) as [rest' k']. cbn [fst] in *.
    constructor; [|exact IH]. unfold starOk. cbn [star_x star_y star_color].
    destruct (random_ok k) as [Hlo Hhi].
    change (Js.num WIDTH) with 60. change (Js.num HEIGHT) with 20.
    split; [lra|]. split; [lra | exact Hc].
  - specialize (IH k Hspeed Hrest).
    destruct (scrollStars rnd rest speed k) as [rest' k']. cbn [fst] in *.
    constructor; [|exact IH]. unfold starOk. cbn [star_x star_y star_color].
    apply ltb_ge in Hwrap. split; [lra|]. split; [exact Hy | exact Hc].
Qed.

Lemma generateStars_field colors count : forall k,
  colors <> [] ->
  Forall (starOk colors) (fst (generateStars rnd count colors k)).
Proof.
  unfold generateStars. induction count as [|count IH]; intros k Hne; [constructor|].
  cbn [arrayFrom]. unfold bind at 1 2 3 4. unfold random at 1 2 3. unfold ret at 1.
  unfold bind at 1.
  specialize (IH (S (S (S k))) Hne).
  destruct (arrayFrom count _ (S (S (S k)))) as [rest k'].
  unfold ret. cbn [fst] in *. constructor; [|exact IH].
  unfold starOk. cbn [star_x star_y star_color].
  destruct (random_ok k) as [Hx0 Hx1]. destruct (random_ok (S k)) as [Hy0 Hy1].
  change (Js.num WIDTH) with 60. change (Js.num HEIGHT) with 20.
  split; [lra|]. split; [lra|].
  destruct (index_draw colors (rnd (S (S k))) (random_ok _) Hne) as (c & Hc & Hin).
  exists c. split; assumption.
Qed.

Lemma asteroidOk_unvisited a : asteroidOk a -> unvisitedOk a.
Proof. unfold asteroidOk, unvisitedOk. tauto. Qed.

Lemma asteroidLoop_field gx gy slots fuel : forall i st k st' k',
  (passesLeft i st <= fuel)%nat ->
  asteroidLoop rnd gx gy slots fuel i st k = (st', k') ->
  (forall j a, (j < i)%nat -> asteroids st !! j = Some a -> asteroidOk a) ->
  (forall j a, (i <= j)%nat -> asteroids st !! j = Some a -> unvisitedOk a) ->
  Forall asteroidOk (asteroids st').
Proof.
  induction fuel as [|fuel IH]; intros i st k st' k' Hfuel; cbn [asteroidLoop].
  - intros [= <- <-] Hdone _. count_passes.
    apply Forall_lookup. intros j a Ha.
    apply (Hdone j a); [|exact Ha]. apply lookup_lt_Some in Ha. lia.
  - destruct (asteroids st !! i) as [a|] eqn:Hi.
    + unfold bind.
      destruct (asteroidStep rnd gx gy slots i a st k) as [st1 k1] eqn:E.
      intros El Hdone Htodo.
      pose proof (lookup_lt_Some _ _ _ Hi) as Hlt.
      pose proof (asteroidStep_length rnd _ _ _ _ _ _ _ _ _ E) as [_ Hmax].
      apply asteroidStep_element in E as (b & extra & [Hl Hx] & Hb).
      apply IH in El; [exact El | count_passes; lia | |].
      * intros j a0 Hj Ha0.
        destruct (decide (j = i)) as [-> | Hne].
        -- rewrite Hl, lookup_app_l in Ha0 by (rewrite length_insert; exact Hlt).
           rewrite list_lookup_insert_eq in Ha0 by exact Hlt.
           injection Ha0 as <-.
           destruct Hb as [Hb | [-> Hon]]; [apply spawned_field, Hb|].
           destruct (Htodo i a (le_n _) Hi) as (Hx0 & Hy0 & Hc0).
           unfold asteroidOk. cbn [asteroid_x asteroid_y asteroid_char].
           apply ltb_ge in Hon. unfold SPEED_ASTEROID in *.
           split; [split; lra|]. split; assumption.
        -- apply (Hdone j a0); [lia|].
           rewrite Hl, lookup_app_l in Ha0 by (rewrite length_insert; lia).
           rewrite list_lookup_insert_ne in Ha0 by congruence. exact Ha0.
      * intros j a0 Hj Ha0. rewrite Hl in Ha0.
        destruct (decide (j < length (asteroids st))%nat) as [Hin | Hout].
        -- rewrite lookup_app_l in Ha0 by (rewrite length_insert; exact Hin).
           rewrite list_lookup_insert_ne in Ha0 by lia.
           apply (Htodo j a0); [lia | exact Ha0].
        -- rewrite lookup_app_r in Ha0 by (rewrite length_insert; lia).
           destruct Hx as [-> | (p & -> & Hp & _)];
             [rewrite lookup_nil in Ha0; discriminate|].
           apply list_lookup_singleton_Some in Ha0 as [_ <-].
           apply asteroidOk_unvisited, spawned_field, Hp.
    + intros [= <- <-] Hdone _. apply lookup_ge_None in Hi.
      apply Forall_lookup. intros j a Ha.
      apply (Hdone j a); [|exact Ha]. apply lookup_lt_Some in Ha. lia.
Qed.

Lemma arrayFrom_spawned score n : forall k,
  Forall (spawned rnd) (fst (arrayFrom n (createAsteroid rnd score) k)).
Proof.
  induction n as [|n IH]; intros k; cbn; [constructor|].
  unfold bind, ret.
  destruct (createAsteroid rnd score k) as [a k1] eqn:Ea.
  specialize (IH k1).
  destruct (arrayFrom n (createAsteroid rnd score) k1) as [rest k2].
  cbn [fst] in *. constructor; [eapply createAsteroid_spawned, Ea | exact IH].
Qed.

(** One call keeps the field. *)
Lemma updateUser_field user st k st' :
  data user = Some st ->
  dataAfter (updateUser rnd user k) = Some st' ->
  fieldOk st -> fieldOk st'.
Proof.
  intros Hd Hafter Hf.
  destruct (updateUser_trace user st k st' Hd Hafter)
    as [-> | (st0 & k0 & slots & st1 & k1 & st2 & k2 & He & Hp & Hl & Hr)];
    [exact Hf|].
  assert (Hf0 : fieldOk st0).
  { apply tickEntry_cases in He as [[_ ->] | [_ Hreset]]; [exact Hf|].
    destruct Hf as (Hfar & Hnear & _ & Pf & Pn & Pg & Pu).
    apply resetGame_spec in Hreset
      as (_ & _ & _ & _ & _ & _ & E5 & E6 & L1 & L2 & L3 & L4 & Hs).
    unfold fieldOk. rewrite E5, E6, L1, L2, L3, L4.
    repeat split; try assumption.
    eapply Forall_impl; [exact Hs|]. intros a Ha. apply spawned_field, Ha. }
  destruct Hf0 as (Hfar & Hnear & Hrocks & Pf & Pn & Pg & Pu).
  destruct (prepareTick_stars user st0 k0 st1 k1 Hp) as (j & Ef1 & En1).
  apply prepareTick_spec in Hp
    as (Ea1 & _ & _ & _ & _ & _ & _ & L1 & L2 & L3 & L4).
  assert (Hf2 : fieldOk st2).
  { pose proof (asteroidLoop_scene rnd _ _ _ _ _ _ _ _ _ Hl)
      as (M1 & M2 & M3 & M4 & Ef2 & En2 & _).
    unfold fieldOk. rewrite Ef2, En2, M1, M2, M3, M4, Ef1, En1, L1, L2, L3, L4.
    split; [apply scrollStars_field; [unfold SPEED_STARS_FAR; lra | exact Hfar]|].
    split; [apply scrollStars_field; [unfold SPEED_STARS_NEAR; lra | exact Hnear]|].
    split; [|tauto].
    eapply asteroidLoop_field; [|exact Hl| |].
    - unfold passesLeft, loopFuel. lia.
    - intros j0 a Hj. lia.
    - intros j0 a _ Ha. rewrite Ea1 in Ha.
      apply asteroidOk_unvisited.
      rewrite Forall_lookup in Hrocks. exact (Hrocks j0 a Ha). }
  destruct Hr as [-> | Hr]; [exact Hf2|].
  eapply renderAll_painted; [exact Hr | exact Hf2].
Qed.

Lemma reachable_field st : reachable rnd st -> fieldOk st.
Proof.
  induction 1 as [k | user k st st' Hreach IH Hd Haxes Hafter].
  - destruct (initialData_spec k)
      as (k1 & k2 & Ef & En & Ea & _ & _ & _ & _ & C1 & C2 & C3 & C4).
    unfold fieldOk, painted. rewrite Ef, En, Ea, C1, C2, C3, C4.
    split; [apply generateStars_field; discriminate|].
    split; [apply generateStars_field; discriminate|].
    split; [|repeat split; constructor].
    eapply Forall_impl; [apply arrayFrom_spawned|].
    intros a Ha. apply spawned_field, Ha.
  - exact (updateUser_field user st k st' Hd Hafter IH).
Qed.

(** *** Properties that hold when the draws are within [0, 1) *)

(** Property X10: with [Math.random()] in [0, 1), every star of a game has
    [0 <= x <= WIDTH] and [0 <= y < HEIGHT] and one of the two colours of
    its field. *)
Theorem stars_stay_on_the_layer st :
  reachable rnd st ->
  Forall (starOk [COLOR_DIM_STAR; COLOR_MEDIUM_STAR]) (starsFar st) /\
  Forall (starOk [COLOR_MEDIUM_STAR; COLOR_BRIGHT_STAR]) (starsNear st).
Proof.
  intros Hreach. apply reachable_field in Hreach as (Hf & Hn & _).
  split; assumption.
Qed.

Lemma floor_row (y : Q) :
  2 <= y <= Js.num (HEIGHT - 3) -> (2 <= Js.floor y <= HEIGHT - 3)%Z.
Proof.
  intros [Hlo Hhi]. unfold Js.floor. split.
  - change 2%Z with (Qfloor 2). apply Qfloor_resp_le, Hlo.
  - change (HEIGHT - 3)%Z with (Qfloor (Js.num (HEIGHT - 3))).
    apply Qfloor_resp_le, Hhi.
Qed.

(** Property X11: with [Math.random()] in [0, 1), every asteroid of a game
    has [-2 <= x <= WIDTH + 30], a row within [2, HEIGHT - 3] and one of
    the three characters: drawn, it never touches the two rows of the UI
    at the top nor the help line at the bottom. *)
Theorem asteroids_stay_on_playable_rows st :
  reachable rnd st ->
  Forall (fun a => asteroidOk a /\ (2 <= posY (asteroidDot a) <= HEIGHT - 3)%Z)
         (asteroids st).
Proof.
  intros Hreach. apply reachable_field in Hreach as (_ & _ & Ha & _).
  eapply Forall_impl; [exact Ha|].
  intros a Hok. split; [exact Hok|].
  destruct Hok as (_ & Hy & _). apply floor_row, Hy.
Qed.

(** Property X12: with [Math.random()] in [0, 1), every order a layer of a
    game was ever sent uses only colours that [init] loads into palette
    slot 0 (or [TRANSPARENT]), only the sprite that [init] loads, and
    only dots that have a character. *)
Theorem committed_orders_are_drawable st :
  reachable rnd st ->
  painted (starLayerFar st) /\ painted (starLayerNear st) /\
  painted (gameLayer st) /\ painted (uiLayer st).
Proof.
  intros Hreach. apply reachable_field in Hreach as (_ & _ & _ & H). exact H.
Qed.

(** Property X13: with [Math.random()] in [0, 1), [generateStars] returns
    exactly [count] stars; with a non-empty colour list each lies on the
    layer and has a colour of the list; with an empty list every colour
    is [undefined]. *)
Theorem generateStars_fills_the_layer count colors k :
  length (fst (generateStars rnd count colors k)) = count /\
  (colors <> [] ->
   Forall (starOk colors) (fst (generateStars rnd count colors k))) /\
  (colors = [] ->
   Forall (fun star => star_color star = None)
          (fst (generateStars rnd count colors k))).
Proof.
  split; [apply generateStars_length|].
  split; [apply generateStars_field|].
  intros ->. unfold generateStars. clear random_ok.
  revert k. induction count as [|count IH]; intros k; [constructor|].
  cbn [arrayFrom]. unfold bind at 1 2 3 4. unfold random at 1 2 3. unfold ret at 1.
  unfold bind at 1.
  specialize (IH (S (S (S k)))).
  destruct (arrayFrom count _ (S (S (S k)))) as [rest k'].
  unfold ret. cbn [fst] in *. constructor; [|exact IH].
  cbn [star_color]. unfold Js.index. destruct (_ <? 0)%Z; reflexivity.
Qed.

End MathRandom.

End More.
Import Examples.

(** *** The properties on concrete games *)

Lemma counters_in_range_witness :
  (lives bruised = 2%Z /\ score bruised = 1%Z /\ invincibilityFrames bruised = 8%Z) /\
  (lives bruised <= 3)%Z /\ (0 <= score bruised)%Z /\
  (0 <= invincibilityFrames bruised <= TICK_RATE)%Z.
Proof.
  split; [vm_compute; repeat split; reflexivity|].
  exact (counters_in_range zeros bruised (session_reachable _)).
Defined.

Lemma game_over_iff_no_life_witness :
  (gameOver crashed = true /\ lives crashed = 0%Z) /\
  (gameOver crashed = true <-> (lives crashed <= 0)%Z).
Proof.
  split; [vm_compute; split; reflexivity|].
  exact (game_over_iff_no_life zeros crashed (session_reachable _)).
Defined.

Lemma asteroid_count_in_range_witness :
  (length (asteroids crowded) = 3%nat /\ score crowded = 4%Z) /\
  (Z.to_nat ASTEROIDS_START <= length (asteroids crowded)
   <= Z.to_nat ASTEROIDS_MAX)%nat.
Proof.
  split; [vm_compute; split; reflexivity|].
  exact (asteroid_count_in_range zeros crowded (session_reachable _)).
Defined.

Lemma star_counts_fixed_witness :
  (lives restarted = 3%Z /\ length (committed (starLayerFar restarted)) = 150%nat) /\
  length (starsFar restarted) = 40%nat /\ length (starsNear restarted) = 25%nat.
Proof.
  split; [vm_compute; split; reflexivity|].
  exact (star_counts_fixed zeros restarted (session_reachable _)).
Defined.

Lemma only_negative_lives_throw_witness :
  let o := updateUser zeros (userWith (Some opening) false 0) 0%nat in
  exists st',
    dataAfter o = Some st' /\
    ((0 <= lives st')%Z -> completion o = Js.Normal) /\
    (completion o <> Js.Normal ->
     completion o = Js.Throw Js.RangeError /\ (lives st' < 0)%Z).
Proof.
  exact (only_negative_lives_throw zeros (userWith (Some opening) false 0)
           opening 0%nat (reach_init zeros 0%nat) eq_refl).
Defined.

Lemma collision_loop_terminates_witness :
  asteroidLoop zeros 10 10 0 100 0 leaving 0%nat
  = asteroidLoop zeros 10 10 0 (passesLeft 0 leaving) 0 leaving 0%nat
  /\ (passesLeft 0 leaving <= loopFuel leaving)%nat.
Proof.
  apply (collision_loop_terminates zeros 10 10 0 100 0 leaving 0%nat).
  unfold passesLeft, leaving, game, ASTEROIDS_MAX. cbn [asteroids length]. lia.
Defined.

Lemma tick_costs_at_most_one_life_witness :
  exists st',
    dataAfter (updateUser zeros (userWith (Some firstHit) false 0) 0%nat) = Some st' /\
    gameOver st' = false /\
    ((lives st' = lives firstHit /\
      invincibilityFrames st' =
        (if (invincibilityFrames firstHit >? 0)%Z
         then invincibilityFrames firstHit - 1 else invincibilityFrames firstHit)%Z)
     \/
     (lives st' = (lives firstHit - 1)%Z /\ invincibilityFrames st' = TICK_RATE
      /\ (invincibilityFrames firstHit <= 1)%Z)).
Proof.
  apply (tick_costs_at_most_one_life zeros (userWith (Some firstHit) false 0)
           firstHit 0%nat); [reflexivity | reflexivity |].
  unfold firstHit, game. cbn [lives]. lia.
Defined.

Lemma running_tick_commits_each_layer_once_witness :
  exists st' ui,
    dataAfter (updateUser zeros (userWith (Some leaving) false 0) 0%nat) = Some st' /\
    committed (starLayerFar st')
      = committed (starLayerFar leaving)
        ++ [[dotCloudMultiColor (map starDot (starsFar st'))]] /\
    committed (starLayerNear st')
      = committed (starLayerNear leaving)
        ++ [[dotCloudMultiColor (map starDot (starsNear st'))]] /\
    committed (gameLayer st')
      = committed (gameLayer leaving)
        ++ [[dotCloudMultiColor (map asteroidDot (asteroids st'));
             sprite (Js.floor (shipX st')) (Js.floor (shipY st') - 1) 0
                    (shipColor st') TRANSPARENT]] /\
    committed (uiLayer st') = committed (uiLayer leaving) ++ [ui] /\
    uiOrders st' = Some ui.
Proof.
  apply (running_tick_commits_each_layer_once zeros
           (userWith (Some leaving) false 0) leaving 0%nat);
    [reflexivity | reflexivity | vm_compute; reflexivity].
Defined.

Lemma ship_flashes_while_recovering_witness :
  let color n := shipColor (set_invincibilityFrames n recovering) in
  (color 10%Z = COLOR_SHIP \/ color 10%Z = COLOR_GAMEOVER) /\
  color (10 + 5)%Z <> color 10%Z /\
  color (10 + 10)%Z = color 10%Z.
Proof.
  apply (ship_flashes_while_recovering recovering 10); [reflexivity | lia].
Defined.

Lemma stars_stay_on_the_layer_witness :
  (forallb (fun star => Qeq_bool (star_x star) 25.5) (starsFar bruised) = true /\
   forallb (fun star => Qeq_bool (star_x star) 18) (starsNear bruised) = true) /\
  Forall (starOk [COLOR_DIM_STAR; COLOR_MEDIUM_STAR]) (starsFar bruised) /\
  Forall (starOk [COLOR_MEDIUM_STAR; COLOR_BRIGHT_STAR]) (starsNear bruised).
Proof.
  split; [vm_compute; split; reflexivity|].
  exact (stars_stay_on_the_layer zeros zeros_ok bruised (session_reachable _)).
Defined.

Lemma asteroids_stay_on_playable_rows_witness :
  (length (asteroids crowded) = 3%nat /\ score crowded = 4%Z) /\
  Forall (fun a => asteroidOk a /\ (2 <= posY (asteroidDot a) <= HEIGHT - 3)%Z)
         (asteroids crowded).
Proof.
  split; [vm_compute; split; reflexivity|].
  exact (asteroids_stay_on_playable_rows zeros zeros_ok crowded
           (session_reachable _)).
Defined.

Lemma committed_orders_are_drawable_witness :
  (length (committed (starLayerFar bruised)) = 70%nat /\
   length (committed (gameLayer bruised)) = 70%nat /\
   length (committed (uiLayer bruised)) = 70%nat) /\
  painted (starLayerFar bruised) /\ painted (starLayerNear bruised) /\
  painted (gameLayer bruised) /\ painted (uiLayer bruised).
Proof.
  split; [vm_compute; repeat split; reflexivity|].
  exact (committed_orders_are_drawable zeros zeros_ok bruised
           (session_reachable _)).
Defined.

Lemma generateStars_fills_the_layer_witness :
  length (fst (generateStars zeros 40 [COLOR_DIM_STAR; COLOR_MEDIUM_STAR] 0%nat))
  = 40%nat /\
  ([COLOR_DIM_STAR; COLOR_MEDIUM_STAR] <> [] ->
   Forall (starOk [COLOR_DIM_STAR; COLOR_MEDIUM_STAR])
          (fst (generateStars zeros 40 [COLOR_DIM_STAR; COLOR_MEDIUM_STAR] 0%nat))) /\
  ([COLOR_DIM_STAR; COLOR_MEDIUM_STAR] = [] ->
   Forall (fun star => star_color star = None)
          (fst (generateStars zeros 40 [COLOR_DIM_STAR; COLOR_MEDIUM_STAR] 0%nat))).
Proof.
  exact (generateStars_fills_the_layer zeros zeros_ok 40
           [COLOR_DIM_STAR; COLOR_MEDIUM_STAR] 0%nat).
Defined.

End SpaceDemoMore.

(* ====================================================================== *)
(** ** Further properties of UTSPClient *)
(* ====================================================================== *)

Module UTSPClientMore.

Import UTSPClient UTSPClientFacts.

Section More.

Variable Application : Type.
Variable RendererType : Type.
Variable Container : Type.
Variable constructorName : Application -> string.
Variable rendererText : RendererType -> string.

Abbreviation Props := (UTSPClient.Props Application RendererType).
Abbreviation Refs := (UTSPClient.Refs Container).
Abbreviation Event := (UTSPClient.Event Application RendererType Container).
Abbreviation Invocation := (UTSPClient.Invocation Application RendererType).
Abbreviation effect := (UTSPClient.effect constructorName rendererText).
Abbreviation invoke := (UTSPClient.invoke constructorName rendererText).
Abbreviation invocations := (UTSPClient.invocations constructorName rendererText).
Abbreviation depsKey := (UTSPClient.depsKey constructorName rendererText).

Lemma starts_app (log more : list Event) :
  starts (log ++ more) = (starts log + starts more)%nat.
Proof. unfold starts. rewrite List.filter_app, length_app. reflexivity. Qed.

Lemma stops_app (log more : list Event) :
  stops (log ++ more) = (stops log + stops more)%nat.
Proof. unfold stops. rewrite List.filter_app, length_app. reflexivity. Qed.

Lemma stopHeld_counts (refs : Refs) (log : list Event) :
  constructions (stopHeld refs log) = constructions log /\
  starts (stopHeld refs log) = starts log /\
  stops (stopHeld refs log) = (stops log + held refs)%nat.
Proof.
  unfold stopHeld, held. destruct (runtimeRef refs).
  - rewrite constructions_app, starts_app, stops_app. cbn. lia.
  - lia.
Qed.

Lemma invoke_balanced (state : Refs * list Event) (i : Invocation) :
  balanced state -> balanced (invoke state i).
Proof.
  destruct state as [refs log]. intros [Hc Hs]. cbn [fst snd] in *.
  destruct (stopHeld_counts refs log) as (Ec & Es & Et).
  destruct i as [props|]; cbn [UTSPClient.invoke fst snd].
  - unfold UTSPClient.effect.
    destruct (containerRef refs) as [element|]; [|split; assumption].
    destruct (keyIs _ _); [split; assumption|].
    unfold balanced. cbn [fst snd held runtimeRef].
    rewrite !constructions_app, !starts_app, !stops_app, Ec, Es, Et. cbn. lia.
  - unfold cleanup, balanced. cbn [fst snd held runtimeRef]. lia.
Qed.

Lemma invocations_balanced (l : list Invocation) :
  forall state : Refs * list Event,
  balanced state -> balanced (invocations l state).
Proof.
  induction l as [|i l IH]; intros state Hb; [exact Hb|].
  cbn. apply IH, invoke_balanced, Hb.
Qed.

(** The runtimes alive at every moment of a log: at most one. *)
Lemma live_snoc (log : list Event) (e : Event) :
  live (log ++ [e]) = liveStep (live log) e.
Proof. unfold live. rewrite fold_left_app. reflexivity. Qed.

Lemma split_snoc (log before after : list Event) (e : Event) :
  log ++ [e] = before ++ after ->
  (before = log ++ [e] /\ after = []) \/
  exists rest, after = rest ++ [e] /\ log = before ++ rest.
Proof.
  destruct after as [|a after _] using rev_ind.
  - rewrite app_nil_r. intros <-. left. split; reflexivity.
  - rewrite app_assoc. intros H. apply app_inj_tail in H as [-> ->].
    right. exists after. split; reflexivity.
Qed.

Lemma single_snoc (log : list Event) (e : Event) :
  (forall before after, log = before ++ after -> (length (live before) <= 1)%nat) ->
  (length (live (log ++ [e])) <= 1)%nat ->
  forall before after,
    log ++ [e] = before ++ after -> (length (live before) <= 1)%nat.
Proof.
  intros Hlog He before after Hsplit.
  apply split_snoc in Hsplit as [[-> _] | (rest & _ & ->)]; [exact He|].
  apply (Hlog before rest). reflexivity.
Qed.

(** [stop()] on the runtime held leaves none alive. *)
Lemma stopHeld_live (refs : Refs) (log : list Event) :
  live log = heldRuntime refs ->
  (forall before after, log = before ++ after -> (length (live before) <= 1)%nat) ->
  live (stopHeld refs log) = [] /\
  (forall before after,
     stopHeld refs log = before ++ after -> (length (live before) <= 1)%nat).
Proof.
  unfold stopHeld, heldRuntime. intros Hlive Hone.
  destruct (runtimeRef refs) as [runtime|]; [|split; assumption].
  assert (Hnone : live (log ++ [Stopped runtime]) = []).
  { rewrite live_snoc, Hlive. cbn. rewrite Nat.eqb_refl. reflexivity. }
  split; [exact Hnone|].
  apply single_snoc; [exact Hone|]. rewrite Hnone. cbn. lia.
Qed.

Lemma invoke_live (state : Refs * list Event) (i : Invocation) :
  live (snd state) = heldRuntime (fst state) ->
  (forall before after,
     snd state = before ++ after -> (length (live before) <= 1)%nat) ->
  live (snd (invoke state i)) = heldRuntime (fst (invoke state i)) /\
  (forall before after,
     snd (invoke state i) = before ++ after -> (length (live before) <= 1)%nat).
Proof.
  destruct state as [refs log]. cbn [fst snd]. intros Hlive Hone.
  destruct (stopHeld_live refs log Hlive Hone) as [Hnone Hstopped].
  destruct i as [props|]; cbn [UTSPClient.invoke fst snd].
  - unfold UTSPClient.effect.
    destruct (containerRef refs) as [element|]; [|split; assumption].
    destruct (keyIs _ _); [split; assumption|].
    cbn [fst snd heldRuntime runtimeRef].
    set (cleared := stopHeld refs log ++ [InnerHTMLSet element ""]).
    assert (Hcleared : live cleared = [])
      by (unfold cleared; rewrite live_snoc, Hnone; reflexivity).
    set (built := cleared ++ [Constructed (constructions cleared) _]).
    assert (Hbuilt : live built = [])
      by (unfold built; rewrite live_snoc, Hcleared; reflexivity).
    assert (Hstarted : live (built ++ [Started (constructions cleared)])
                       = [constructions cleared])
      by (rewrite live_snoc, Hbuilt; reflexivity).
    split; [exact Hstarted|].
    apply single_snoc; [|rewrite Hstarted; cbn; lia].
    apply single_snoc;
      [|change (length (live built) <= 1)%nat; rewrite Hbuilt; cbn; lia].
    apply single_snoc;
      [exact Hstopped
      |change (length (live cleared) <= 1)%nat; rewrite Hcleared; cbn; lia].
  - unfold cleanup. cbn [fst snd heldRuntime runtimeRef].
    split; [exact Hnone | exact Hstopped].
Qed.

Lemma invocations_live (l : list Invocation) :
  forall state : Refs * list Event,
  live (snd state) = heldRuntime (fst state) ->
  (forall before after,
     snd state = before ++ after -> (length (live before) <= 1)%nat) ->
  live (snd (invocations l state)) = heldRuntime (fst (invocations l state)) /\
  (forall before after,
     snd (invocations l state) = before ++ after ->
     (length (live before) <= 1)%nat).
Proof.
  induction l as [|i l IH]; intros state Hlive Hone; [split; assumption|].
  cbn. destruct (invoke_live state i Hlive Hone) as [Hlive' Hone'].
  apply IH; assumption.
Qed.

(** Property X14: at most one runtime runs.  Take any sequence of effect
    bodies (with any props) and cleanups on a component that starts
    without a runtime.  At every moment of the log at most one runtime is
    alive, that is, started and not stopped since.  At the end the
    runtimes alive are exactly the one the refs hold, or none when they
    hold none: every other runtime that was started has been stopped.
    Every runtime constructed has been started, and the numbers of starts
    and stops differ by the one runtime held. *)
Theorem one_runtime_at_a_time (l : list Invocation) (mountedOn : option Container) :
  let '(refs, log) := invocations l (mkRefs mountedOn None None, []) in
  live log = heldRuntime refs /\
  (forall before after,
     log = before ++ after -> (length (live before) <= 1)%nat) /\
  constructions log = starts log /\
  starts log = (stops log + held refs)%nat /\
  (starts log - stops log <= 1)%nat.
Proof.
  pose proof (invocations_balanced l (mkRefs mountedOn None None, [])) as H.
  pose proof (invocations_live l (mkRefs mountedOn None None, [])) as L.
  destruct (invocations l _) as [refs log].
  destruct H as [Hc Hs]; [split; reflexivity|].
  destruct L as [Hlive Hone]; [reflexivity| |].
  { cbn [snd]. intros before after Hnil. symmetry in Hnil.
    apply app_eq_nil in Hnil as [-> _]. cbn. lia. }
  cbn [fst snd] in *.
  split; [exact Hlive|]. split; [exact Hone|].
  split; [exact Hc|]. split; [exact Hs|].
  unfold held in Hs. destruct (runtimeRef refs); lia.
Qed.

End More.
End UTSPClientMore.
